(** * routing-controllers-openapi-extra: the multipart file-field validator,
      the async type resolver and the slug helper

    A shallow embedding of [src/files.ts] (the middleware installed by
    [UseMulter]), of the MIME test of the compiled [files.js], of
    [AsyncResolver]/[IsEntity] from [src/decorators.ts] and of [toSlug] from
    [utils.ts], with the properties of the design document stated and proved
    over them.

    Conventions.
    - A JavaScript string is a [string]: a sequence of code units below 256.
      [toSlug] is modelled over arbitrary code units (a list of [N]).
    - A JavaScript number is a [number]: an integer or NaN.  File sizes,
      file counts and byte bounds are integers; binary64 rounding is not
      modelled.
    - [req.files] is a [gmap string FilesEntry]: multer builds it with
      [Object.create(null)], so a key that was never written reads as
      [undefined]. *)

From Stdlib Require Import ZArith NArith Ascii String List Bool Lia.
From stdpp Require Import base option list strings gmap pretty.

Local Open Scope string_scope.
Local Open Scope list_scope.
Local Open Scope Z_scope.

(** ** JavaScript numbers *)

Inductive number : Type :=
| Num (z : Z)
| NaN.

(** [a < b] and [a > b] on numbers: every comparison with NaN is false. *)
Definition js_lt (a b : number) : bool :=
  match a, b with
  | Num x, Num y => x <? y
  | _, _ => false
  end.

Definition js_gt (a b : number) : bool := js_lt b a.

(** Truthiness, as used by [if (x)] and [x && ...]. *)
Definition truthy_number (n : number) : bool :=
  match n with
  | Num z => negb (z =? 0)
  | NaN => false
  end.

Definition truthy_string (s : string) : bool :=
  match s with
  | EmptyString => false
  | String _ _ => true
  end.

(** An optional property [o.p?: T] tested by [if (o.p)]. *)
Definition truthy_opt {A} (truthy : A -> bool) (o : option A) : bool :=
  match o with
  | Some a => truthy a
  | None => false
  end.

(** [String(n)] for an integer, [String(NaN)]. *)
Definition number_toString (n : number) : string :=
  match n with
  | Num z => pretty z
  | NaN => "NaN"
  end.

(** [parseFloat(x)] where [x] is what [bytes] returned: a number or [null].
    [parseFloat(null)] reads the string "null" and yields NaN. *)
Definition parseFloat (x : option Z) : number :=
  match x with
  | Some z => Num z
  | None => NaN
  end.

(** ** Data of [files.ts] *)

(** [Express.Multer.File], without the content buffer. *)
Record File : Type := {
  originalname : string;
  mimetype : string;
  size : Z;
}.

(** A [RegExp] object without the [g] and [y] flags, seen through the two
    methods the middleware calls. *)
Record RegExp : Type := {
  test : string -> bool;
  toString : string;
}.

Record FileFieldOptions : Type := {
  fieldName : option string;
  required : bool;
  maxSize : option string;
  minSize : option string;
  maxFiles : option Z;
  minFiles : option Z;
  mimeTypes : option (list RegExp);
}.

Record FileFieldMetadata : Type := {
  propertyKey : string;
  isArray : bool;
  options : FileFieldOptions;
}.

(** What [req.files[name]] can hold while the middleware runs: the array
    multer stored, the single file written back for a scalar field, or an
    explicit [undefined]. *)
Inductive FilesEntry : Type :=
| Undefined
| OneFile (f : File)
| FileArray (fs : list File).

(** The argument of [parseFileSize]: [string | number]. *)
Inductive SizeValue : Type :=
| SizeString (s : string)
| SizeNumber (n : number).

(** Every [new Error(...)] of the middleware, with the values its template
    interpolates; [ParserError] is the [err] multer hands to the callback. *)
Inductive Error : Type :=
| NoFilesUploaded (name : string)
| TooFewFiles (name : string) (min : Z)
| TooManyFiles (name : string) (max : Z)
| FileTooSmall (file : string) (min : string)
| FileTooLarge (file : string) (max : string)
| InvalidType (file mime : string) (allowed : list RegExp)
| ParserError (msg : string).

(** [arr.join(", ")]. *)
Fixpoint join (sep : string) (l : list string) : string :=
  match l with
  | [] => ""
  | [x] => x
  | x :: rest => x +:+ sep +:+ join sep rest
  end.

Definition message (e : Error) : string :=
  match e with
  | NoFilesUploaded name => "No files uploaded for field: " +:+ name
  | TooFewFiles name min =>
      "Too few files uploaded for '" +:+ name +:+ "'. Minimum number: "
      +:+ number_toString (Num min) +:+ "."
  | TooManyFiles name max =>
      "Too many files uploaded for '" +:+ name +:+ "'. Maximum number: "
      +:+ number_toString (Num max) +:+ "."
  | FileTooSmall file min =>
      "File " +:+ file +:+ " is too small. Minimum size is " +:+ min +:+ "."
  | FileTooLarge file max =>
      "File " +:+ file +:+ " is too large. Maximum size is " +:+ max +:+ "."
  | InvalidType file mime allowed =>
      "File " +:+ file +:+ " has invalid type (" +:+ mime +:+ "). Allowed: "
      +:+ join ", " (map toString allowed) +:+ "."
  | ParserError msg => msg
  end.

(** How the callback given to [uploadEngine.fields(...)] ends. *)
Inductive Outcome : Type :=
| Next
| NextErr (e : Error)
| ThrowsTypeError.

(** One iteration of [for (const meta of fileFields)]: fall through to the
    next field, or leave the callback; either way with the current
    [req.files]. *)
Inductive Step : Type :=
| Continue (files : gmap string FilesEntry)
| Return (o : Outcome) (files : gmap string FilesEntry).

(** ** The middleware of [UseMulter] *)

Section Validator.

(** The [bytes] package, applied to a string: a number or [null]. *)
Variable bytes : string -> option Z.

Definition parseFileSize (value : SizeValue) : number :=
  match value with
  | SizeNumber n => n
  | SizeString s => parseFloat (bytes s)
  end.

(** [meta.options.fieldName || meta.propertyKey] *)
Definition field_name (meta : FileFieldMetadata) : string :=
  match fieldName (options meta) with
  | Some s => if truthy_string s then s else propertyKey meta
  | None => propertyKey meta
  end.

(** [multerFields]: the per-field limits handed to the parser. *)
Definition multerFields (fileFields : list FileFieldMetadata) : list (string * Z) :=
  map (fun meta =>
         (field_name meta,
          if isArray meta then default 99 (maxFiles (options meta)) else 1))
      fileFields.

(** [generateFileDescription(options, isArray)]: the schema description
    built when the decorators run. *)
Definition generateFileDescription (o : FileFieldOptions) (isArray : bool) : string :=
  let d0 := "Upload " +:+ (if isArray then "multiple files" else "a file") in
  let d1 :=
    match fieldName o with
    | Some n => if truthy_string n then d0 +:+ " under the key '" +:+ n +:+ "'." else d0
    | None => d0
    end in
  let d2 :=
    match mimeTypes o with
    | Some (r :: rs) =>
        d1 +:+ " Allowed MIME types: " +:+ join ", " (map toString (r :: rs)) +:+ "."
    | Some [] | None => d1
    end in
  let d3 :=
    match minSize o with
    | Some s => if truthy_string s then d2 +:+ " Minimum size: " +:+ s +:+ "." else d2
    | None => d2
    end in
  let d4 :=
    match maxSize o with
    | Some s => if truthy_string s then d3 +:+ " Maximum size: " +:+ s +:+ "." else d3
    | None => d3
    end in
  let d5 :=
    match minFiles o with
    | Some n =>
        if truthy_number (Num n)
        then d4 +:+ " Minimum number of files: " +:+ number_toString (Num n) +:+ "."
        else d4
    | None => d4
    end in
  match maxFiles o with
  | Some n =>
      if truthy_number (Num n)
      then d5 +:+ " Maximum number of files: " +:+ number_toString (Num n) +:+ "."
      else d5
  | None => d5
  end.

(** [!files] *)
Definition not_files (files : option FilesEntry) : bool :=
  match files with
  | None | Some Undefined => true
  | Some (OneFile _) | Some (FileArray _) => false
  end.

(** [files.length]; a file object has no such property. *)
Definition files_length (files : option FilesEntry) : option Z :=
  match files with
  | Some (FileArray fs) => Some (Z.of_nat (length fs))
  | _ => None
  end.

(** [files.length === 0] *)
Definition length_is_zero (files : option FilesEntry) : bool :=
  match files_length files with
  | Some n => n =? 0
  | None => false
  end.

(** [meta.options.minFiles && files.length < meta.options.minFiles] *)
Definition below_minFiles (o : FileFieldOptions) (files : option FilesEntry) : bool :=
  truthy_opt (fun z => truthy_number (Num z)) (minFiles o) &&
  match minFiles o, files_length files with
  | Some m, Some n => js_lt (Num n) (Num m)
  | _, _ => false
  end.

(** [meta.options.maxFiles && files.length > meta.options.maxFiles] *)
Definition above_maxFiles (o : FileFieldOptions) (files : option FilesEntry) : bool :=
  truthy_opt (fun z => truthy_number (Num z)) (maxFiles o) &&
  match maxFiles o, files_length files with
  | Some m, Some n => js_gt (Num n) (Num m)
  | _, _ => false
  end.

(** The first [if] of the file loop. *)
Definition too_small (o : FileFieldOptions) (file : File) : bool :=
  match minSize o with
  | Some s => truthy_string s && js_lt (Num (size file)) (parseFileSize (SizeString s))
  | None => false
  end.

(** The second [if] of the file loop. *)
Definition too_large (o : FileFieldOptions) (file : File) : bool :=
  match maxSize o with
  | Some s => truthy_string s && js_gt (Num (size file)) (parseFileSize (SizeString s))
  | None => false
  end.

(** The third [if] of the file loop:
    [mimeTypes && mimeTypes.length > 0 && !mimeTypes.some(r => r.test(mimetype))] *)
Definition bad_type (o : FileFieldOptions) (file : File) : bool :=
  match mimeTypes o with
  | Some (r :: rs) => negb (existsb (fun regex => test regex (mimetype file)) (r :: rs))
  | Some [] | None => false
  end.

(** The body of [for (const file of files)] for one file. *)
Definition check_file (o : FileFieldOptions) (file : File) : option Error :=
  if too_small o file then
    Some (FileTooSmall (originalname file) (default "" (minSize o)))
  else if too_large o file then
    Some (FileTooLarge (originalname file) (default "" (maxSize o)))
  else if bad_type o file then
    Some (InvalidType (originalname file) (mimetype file) (default [] (mimeTypes o)))
  else None.

(** [for (const file of files)] over an array. *)
Fixpoint check_files (o : FileFieldOptions) (fs : list File) : option Error :=
  match fs with
  | [] => None
  | file :: rest =>
      match check_file o file with
      | Some e => Some e
      | None => check_files o rest
      end
  end.

(** The file loop on whatever [files] holds: a file object is not
    iterable. *)
Definition file_loop (o : FileFieldOptions) (files : option FilesEntry)
    (st : gmap string FilesEntry) : Step :=
  match files with
  | Some (FileArray fs) =>
      match check_files o fs with
      | Some e => Return (NextErr e) st
      | None => Continue st
      end
  | _ => Return ThrowsTypeError st
  end.

(** The body of [for (const meta of fileFields)]. *)
Definition process_field (meta : FileFieldMetadata) (st : gmap string FilesEntry) : Step :=
  let o := options meta in
  let name := field_name meta in
  let files := st !! name in
  if not_files files || length_is_zero files then
    if required o then Return (NextErr (NoFilesUploaded name)) st
    else if isArray meta then Continue (<[name := FileArray []]> st)
    else Continue (<[name := Undefined]> st)
  else if isArray meta then
    if below_minFiles o files then
      Return (NextErr (TooFewFiles name (default 0 (minFiles o)))) st
    else if above_maxFiles o files then
      Return (NextErr (TooManyFiles name (default 0 (maxFiles o)))) st
    else file_loop o files st
  else
    if required o && length_is_zero files then
      Return (NextErr (NoFilesUploaded name)) st
    else
      match files with
      | Some (FileArray (first :: _)) => file_loop o files (<[name := OneFile first]> st)
      | _ => file_loop o files st
      end.

Fixpoint validate_fields (fileFields : list FileFieldMetadata)
    (st : gmap string FilesEntry) : Step :=
  match fileFields with
  | [] => Continue st
  | meta :: rest =>
      match process_field meta st with
      | Continue st' => validate_fields rest st'
      | Return o st' => Return o st'
      end
  end.

(** The callback [(err) => { ... }]: its outcome and [req.files] when it
    ends. *)
Definition UseMulter_callback (fileFields : list FileFieldMetadata)
    (err : option Error) (req_files : option (gmap string FilesEntry))
    : Outcome * option (gmap string FilesEntry) :=
  match err with
  | Some e => (NextErr e, req_files)
  | None =>
      match req_files with
      | None => (Next, None)
      | Some st =>
          match validate_fields fileFields st with
          | Continue st' => (Next, Some st')
          | Return o st' => (o, Some st')
          end
      end
  end.

End Validator.

(** ** The [bytes] package on strings

    [bytes(value)] with a string argument is [parse(value)] of the npm
    package [bytes] 3.1, an external dependency of [files.ts].  The result
    is a number or [null] ([None]).  Fractions are evaluated exactly. *)

Module Bytes.

Definition is_digit (c : ascii) : bool :=
  let n := N_of_ascii c in ((48 <=? n) && (n <=? 57))%N.

Definition digit_value (c : ascii) : Z := Z.of_N (N_of_ascii c) - 48.

(** The value of a digit sequence, most significant digit first. *)
Definition digits_value (ds : list ascii) : Z :=
  fold_left (fun acc c => 10 * acc + digit_value c) ds 0.

(** [\d*]: the longest prefix of digits, and what follows it. *)
Fixpoint take_digits (s : string) : list ascii * string :=
  match s with
  | String c rest =>
      if is_digit c then
        let '(ds, r) := take_digits rest in (c :: ds, r)
      else ([], s)
  | EmptyString => ([], s)
  end.

(** [(-|\+)?] *)
Definition take_sign (s : string) : Z * string :=
  match s with
  | String "-" r => (-1, r)
  | String "+" r => (1, r)
  | _ => (1, s)
  end.

(** [ *] *)
Fixpoint drop_spaces (s : string) : string :=
  match s with
  | String " " r => drop_spaces r
  | _ => s
  end.

(** [(?:\.\d+)?]: a dot followed by at least one digit, or nothing. *)
Definition take_fraction (s : string) : list ascii * string :=
  match s with
  | String "." r =>
      match take_digits r with
      | ([], _) => ([], s)
      | (fd, r') => (fd, r')
      end
  | _ => ([], s)
  end.

Definition toLowerCase_char (c : ascii) : ascii :=
  let n := N_of_ascii c in
  if ((65 <=? n) && (n <=? 90))%N then ascii_of_N (n + 32) else c.

Fixpoint toLowerCase (s : string) : string :=
  match s with
  | EmptyString => EmptyString
  | String c r => String (toLowerCase_char c) (toLowerCase r)
  end.

(** The table [map], restricted to the units [parseRegExp] accepts. *)
Definition unit_map (unit : string) : option Z :=
  if String.eqb unit "kb" then Some (2 ^ 10)
  else if String.eqb unit "mb" then Some (2 ^ 20)
  else if String.eqb unit "gb" then Some (2 ^ 30)
  else if String.eqb unit "tb" then Some (2 ^ 40)
  else if String.eqb unit "pb" then Some (2 ^ 50)
  else None.

(** [parseRegExp.exec(val)] for
    [/^((-|\+)?(\d+(?:\.\d+)?)) *(kb|mb|gb|tb|pb)$/i]: the sign, the integer
    digits, the fraction digits and the multiplier of the unit. *)
Definition parseRegExp_exec (val : string) : option (Z * list ascii * list ascii * Z) :=
  let '(sign, s1) := take_sign val in
  let '(int, s2) := take_digits s1 in
  match int with
  | [] => None
  | _ :: _ =>
      let '(frac, s3) := take_fraction s2 in
      match unit_map (toLowerCase (drop_spaces s3)) with
      | Some mult => Some (sign, int, frac, mult)
      | None => None
      end
  end.

(** White space and line terminators below 256, skipped by [parseInt]. *)
Definition is_whitespace (c : ascii) : bool :=
  let n := N_of_ascii c in
  (((9 <=? n) && (n <=? 13)) || (n =? 32) || (n =? 160))%N.

Fixpoint trim_start (s : string) : string :=
  match s with
  | String c r => if is_whitespace c then trim_start r else s
  | EmptyString => s
  end.

(** [parseInt(val, 10)]; [None] is NaN. *)
Definition parseInt10 (val : string) : option Z :=
  let '(sign, s1) := take_sign (trim_start val) in
  match take_digits s1 with
  | ([], _) => None
  | (ds, _) => Some (sign * digits_value ds)
  end.

(** [parse(val)]: with a unit, [Math.floor(map[unit] * floatValue)];
    otherwise the unit is [b] and the value [parseInt(val, 10)]; [null]
    when that is NaN. *)
Definition parse (val : string) : option Z :=
  match parseRegExp_exec val with
  | Some (sign, int, frac, mult) =>
      let k := 10 ^ Z.of_nat (length frac) in
      Some ((sign * mult * (digits_value int * k + digits_value frac)) / k)
  | None => parseInt10 val
  end.

Definition bytes (value : string) : option Z := parse value.

End Bytes.

(** ** The MIME test of the compiled [files.js]

    There [mimeTypes] is [RegExp[] | string[]] and a string item goes
    through [new RegExp(item)].  The pattern syntax modelled is: pattern
    characters, identity escapes of syntax characters and of [/], [.], [^],
    [$], and the quantifiers [*], [+] and [?] after a character, an escape
    or a dot. *)

Module Pattern.

Inductive CharSet : Type :=
| One (c : ascii)
| Dot.

(** A character or [.], alone or under one of the quantifiers [*], [+]
    and [?]; the assertions [^] and [$]. *)
Inductive Atom : Type :=
| Single (cs : CharSet)
| Star (cs : CharSet)
| Plus (cs : CharSet)
| Opt (cs : CharSet)
| Bol
| Eol.

(** SyntaxCharacter: [^ $ \ . * + ? ( ) [ ] { } |]. *)
Definition is_syntax_char (c : ascii) : bool :=
  match c with
  | "^" | "$" | "\" | "." | "*" | "+" | "?" | "(" | ")" | "[" | "]" | "{" | "}" | "|" => true
  | _ => false
  end%char.

(** Line terminators below 256: LF and CR. *)
Definition is_line_terminator (c : ascii) : bool :=
  match c with
  | "010" | "013" => true
  | _ => false
  end%char.

(** The pattern of [new RegExp(s)] without flags; [None] when the
    constructor throws a SyntaxError or the syntax is not modelled. *)
Fixpoint compile (s : string) : option (list Atom) :=
  match s with
  | EmptyString => Some []
  | String c rest =>
      let quantified (cs : CharSet) (after : string) :=
        match after with
        | String "*" after' => cons (Star cs) <$> compile after'
        | String "+" after' => cons (Plus cs) <$> compile after'
        | String "?" after' => cons (Opt cs) <$> compile after'
        | _ => cons (Single cs) <$> compile after
        end in
      match c with
      | "^"%char => cons Bol <$> compile rest
      | "$"%char => cons Eol <$> compile rest
      | "."%char => quantified Dot rest
      | "\"%char =>
          match rest with
          | String d rest' =>
              if is_syntax_char d || Ascii.eqb d "/" then
                match rest' with
                | String "*" after' => cons (Star (One d)) <$> compile after'
                | String "+" after' => cons (Plus (One d)) <$> compile after'
                | String "?" after' => cons (Opt (One d)) <$> compile after'
                | _ => cons (Single (One d)) <$> compile rest'
                end
              else None
          | EmptyString => None
          end
      | _ => if is_syntax_char c then None else quantified (One c) rest
      end
  end.

Definition in_set (cs : CharSet) (c : ascii) : bool :=
  match cs with
  | One d => Ascii.eqb d c
  | Dot => negb (is_line_terminator c)
  end.

(** Does the pattern match a prefix of [text]?  [at_start] tells whether
    [text] begins at index 0 of the subject. *)
Fixpoint match_here (re : list Atom) (at_start : bool) (text : string) : bool :=
  match re with
  | [] => true
  | Bol :: re' => at_start && match_here re' at_start text
  | Eol :: re' =>
      match text with
      | EmptyString => match_here re' at_start text
      | String _ _ => false
      end
  | Single cs :: re' =>
      match text with
      | String c t => in_set cs c && match_here re' false t
      | EmptyString => false
      end
  | Star cs :: re' =>
      (fix star (text : string) (at_start : bool) {struct text} : bool :=
         match_here re' at_start text ||
         match text with
         | String c t => in_set cs c && star t false
         | EmptyString => false
         end) text at_start
  | Plus cs :: re' =>
      match text with
      | String c t =>
          in_set cs c &&
          (fix star (text : string) (at_start : bool) {struct text} : bool :=
             match_here re' at_start text ||
             match text with
             | String c t => in_set cs c && star t false
             | EmptyString => false
             end) t false
      | EmptyString => false
      end
  | Opt cs :: re' =>
      match_here re' at_start text ||
      match text with
      | String c t => in_set cs c && match_here re' false t
      | EmptyString => false
      end
  end.

(** The match is tried at every index of the subject. *)
Fixpoint search (re : list Atom) (at_start : bool) (text : string) : bool :=
  match_here re at_start text ||
  match text with
  | String _ t => search re false t
  | EmptyString => false
  end.

(** [regex.test(str)] *)
Definition regex_test (re : list Atom) (str : string) : bool := search re true str.

(** A string without syntax characters. *)
Fixpoint plain (s : string) : bool :=
  match s with
  | EmptyString => true
  | String c r => negb (is_syntax_char c) && plain r
  end.

(** The pattern that matches the characters of [s] one by one. *)
Fixpoint literal (s : string) : list Atom :=
  match s with
  | EmptyString => []
  | String c r => Single (One c) :: literal r
  end.

(** [s] occurs somewhere in [text]. *)
Definition occurs_in (s text : string) : Prop :=
  exists pre post, text = pre +:+ s +:+ post.

(** [new RegExp(source)] in the syntax modelled. *)
Definition new (source : string) : option RegExp :=
  (fun re => {| test := regex_test re; toString := "/" +:+ source +:+ "/" |})
    <$> compile source.

End Pattern.

(** An item of [mimeTypes] in [files.js]. *)
Inductive MimeItem : Type :=
| ItemRegExp (r : RegExp)
| ItemString (s : string).

Section MimeTest.

(** [new RegExp(item)] for a string: the expression, or [None] when the
    constructor throws a SyntaxError. *)
Variable RegExp_new : string -> option RegExp.

(** [(item instanceof RegExp ? item : new RegExp(item)).test(mimetype)] *)
Definition item_test (item : MimeItem) (mime : string) : option bool :=
  match item with
  | ItemRegExp r => Some (test r mime)
  | ItemString s => (fun regex => test regex mime) <$> RegExp_new s
  end.

(** [matched = mimeTypes.some(item => ...)]: stops at the first item that
    matches; an item that throws ends it. *)
Fixpoint mime_matched (items : list MimeItem) (mime : string) : option bool :=
  match items with
  | [] => Some false
  | item :: rest =>
      match item_test item mime with
      | Some true => Some true
      | Some false => mime_matched rest mime
      | None => None
      end
  end.

End MimeTest.

(** ** The validation rules, as the design document words them

    The reference the middleware is compared with: the rules of one field in
    the order missing-required, cardinality, then for each received file
    size-min, size-max, MIME; the fields in declaration order; the first
    violation wins.  Each rule is decided as the middleware decides it; the
    reference fixes their order, reads the parser's raw groups and writes
    nothing. *)

Section Rules.

Variable bytes : string -> option Z.

(** The files the parser grouped under a name; none when the name is
    absent. *)
Definition received (raw : gmap string (list File)) (name : string) : list File :=
  default [] (raw !! name).

Definition rule_missing (meta : FileFieldMetadata) (fs : list File) : option Error :=
  match fs with
  | [] => if required (options meta) then Some (NoFilesUploaded (field_name meta)) else None
  | _ :: _ => None
  end.

Definition rule_cardinality (meta : FileFieldMetadata) (fs : list File) : option Error :=
  if isArray meta then
    if below_minFiles (options meta) (Some (FileArray fs)) then
      Some (TooFewFiles (field_name meta) (default 0 (minFiles (options meta))))
    else if above_maxFiles (options meta) (Some (FileArray fs)) then
      Some (TooManyFiles (field_name meta) (default 0 (maxFiles (options meta))))
    else None
  else None.

Definition rule_files (meta : FileFieldMetadata) (fs : list File) : option Error :=
  check_files bytes (options meta) fs.

(** The first violated rule of one field. *)
Definition field_violation (meta : FileFieldMetadata) (fs : list File) : option Error :=
  match rule_missing meta fs with
  | Some e => Some e
  | None =>
      match fs with
      | [] => None
      | _ :: _ =>
          match rule_cardinality meta fs with
          | Some e => Some e
          | None => rule_files meta fs
          end
      end
  end.

(** The first violated rule of the first violating field. *)
Fixpoint first_violation (fileFields : list FileFieldMetadata)
    (raw : gmap string (list File)) : option Error :=
  match fileFields with
  | [] => None
  | meta :: rest =>
      match field_violation meta (received raw (field_name meta)) with
      | Some e => Some e
      | None => first_violation rest raw
      end
  end.

(** Every violation of one file, in the order size-min, size-max, MIME. *)
Definition file_violations (o : FileFieldOptions) (file : File) : list Error :=
  (if too_small bytes o file
   then [FileTooSmall (originalname file) (default "" (minSize o))] else [])
  ++ (if too_large bytes o file
      then [FileTooLarge (originalname file) (default "" (maxSize o))] else [])
  ++ (if bad_type o file
      then [InvalidType (originalname file) (mimetype file) (default [] (mimeTypes o))]
      else []).

(** Every violation of one field: the missing required field alone when
    there is no file; otherwise the cardinality violations, then those of
    each file in file order. *)
Definition field_violations (meta : FileFieldMetadata) (fs : list File) : list Error :=
  match fs with
  | [] => if required (options meta) then [NoFilesUploaded (field_name meta)] else []
  | _ :: _ =>
      (if isArray meta then
         (if below_minFiles (options meta) (Some (FileArray fs))
          then [TooFewFiles (field_name meta) (default 0 (minFiles (options meta)))]
          else [])
         ++ (if above_maxFiles (options meta) (Some (FileArray fs))
             then [TooManyFiles (field_name meta) (default 0 (maxFiles (options meta)))]
             else [])
       else [])
      ++ flat_map (file_violations (options meta)) fs
  end.

(** Every violation of a request, field by field in declaration order. *)
Definition all_violations (fileFields : list FileFieldMetadata)
    (raw : gmap string (list File)) : list Error :=
  flat_map (fun meta => field_violations meta (received raw (field_name meta))) fileFields.

End Rules.

(** The normalized shape of a field's entry: the array for an array field,
    the first file or an absent value for a scalar field. *)
Definition normalized (meta : FileFieldMetadata) (fs : list File) : FilesEntry :=
  if isArray meta then FileArray fs
  else match fs with
       | first :: _ => OneFile first
       | [] => Undefined
       end.

(** What the middleware leaves under a field's name when it is done with
    the field: nothing new for a missing required field and for an array
    field with files, the normalized shape otherwise. *)
Definition written (meta : FileFieldMetadata) (fs : list File)
    (st : gmap string FilesEntry) : gmap string FilesEntry :=
  match fs with
  | [] =>
      if required (options meta) then st
      else <[field_name meta := normalized meta []]> st
  | _ :: _ =>
      if isArray meta then st
      else <[field_name meta := normalized meta fs]> st
  end.

(** [req.files] as the parser leaves it: an array under every name that
    received files. *)
Definition parsed (raw : gmap string (list File)) : gmap string FilesEntry :=
  FileArray <$> raw.

(** [st] still holds under [name] what the parser put there. *)
Definition untouched (st : gmap string FilesEntry) (name : string) (fs : list File) : Prop :=
  st !! name = Some (FileArray fs) \/ (st !! name = None /\ fs = []).

(** Every declared field still has the parser's group in [st]. *)
Definition all_untouched (raw : gmap string (list File))
    (fileFields : list FileFieldMetadata) (st : gmap string FilesEntry) : Prop :=
  forall m, m ∈ fileFields ->
    untouched st (field_name m) (received raw (field_name m)).

(** The errors the file loop can produce. *)
Definition file_error (e : Error) : Prop :=
  match e with
  | FileTooSmall _ _ | FileTooLarge _ _ | InvalidType _ _ _ => True
  | _ => False
  end.

(** The step that reports a violation, or goes on when there is none. *)
Definition step_of (v : option Error) (st : gmap string FilesEntry) : Step :=
  match v with
  | Some e => Return (NextErr e) st
  | None => Continue st
  end.

(** [req.files] when the loop over [fileFields] ends, by a violation or
    by running out of fields: every field up to there has left [written]. *)
Fixpoint written_until (bytes : string -> option Z) (fileFields : list FileFieldMetadata)
    (raw : gmap string (list File)) (st : gmap string FilesEntry)
    : gmap string FilesEntry :=
  match fileFields with
  | [] => st
  | meta :: rest =>
      let fs := received raw (field_name meta) in
      match field_violation bytes meta fs with
      | Some _ => written meta fs st
      | None => written_until bytes rest raw (written meta fs st)
      end
  end.

(** ** Sample declarations and files *)

(** The literal [/source/], for a source in the syntax of [Pattern]. *)
Definition regexp_literal (source : string) : RegExp :=
  {| test := fun str =>
       match Pattern.compile source with
       | Some re => Pattern.regex_test re str
       | None => false
       end;
     toString := "/" +:+ source +:+ "/" |}.

(** [@IsFile({ fieldName: "avatar", required: true, maxSize: "2MB",
              mimeTypes: [/^image\/png$/, /^image\/jpeg$/] }) picture] *)
Definition avatar : FileFieldMetadata :=
  {| propertyKey := "picture"; isArray := false;
     options :=
       {| fieldName := Some "avatar"; required := true; maxSize := Some "2MB";
          minSize := None; maxFiles := None; minFiles := None;
          mimeTypes := Some [regexp_literal "^image\/png$";
                             regexp_literal "^image\/jpeg$"] |} |}.

(** [@IsFiles({ minFiles: 2, maxFiles: 5 }) docs] *)
Definition docs : FileFieldMetadata :=
  {| propertyKey := "docs"; isArray := true;
     options :=
       {| fieldName := None; required := false; maxSize := None; minSize := None;
          maxFiles := Some 5; minFiles := Some 2; mimeTypes := None |} |}.

(** [@IsFile({ maxSize: "1KB" }) cover] *)
Definition cover : FileFieldMetadata :=
  {| propertyKey := "cover"; isArray := false;
     options :=
       {| fieldName := None; required := false; maxSize := Some "1KB";
          minSize := None; maxFiles := None; minFiles := None; mimeTypes := None |} |}.

Definition png (name : string) (bytes : Z) : File :=
  {| originalname := name; mimetype := "image/png"; size := bytes |}.

(** [@IsFiles({ maxFiles: 0 }) attachments] *)
Definition attachments : FileFieldMetadata :=
  {| propertyKey := "attachments"; isArray := true;
     options :=
       {| fieldName := None; required := false; maxSize := None; minSize := None;
          maxFiles := Some 0; minFiles := None; mimeTypes := None |} |}.

(** [@IsFile({ minSize: min, maxSize: max }) key] *)
Definition sized (key : string) (min max : option string) : FileFieldMetadata :=
  {| propertyKey := key; isArray := false;
     options :=
       {| fieldName := None; required := false; maxSize := max; minSize := min;
          maxFiles := None; minFiles := None; mimeTypes := None |} |}.

(** ** [AsyncResolver] and [IsEntity] of [decorators.ts]

    A promise stands for its eventual state.  The writes of the callbacks
    chained on it are recorded when the chain is built. *)

Module AsyncResolver.

Section Promises.

(** A constructor function, and a rejection reason or thrown value. *)
Variable Class : Type.
Variable Reason : Type.
Variable class_name : Class -> string.

Inductive Promise (A : Type) : Type :=
| Fulfilled (a : A)
| Rejected (reason : Reason)
| Pending.

Arguments Fulfilled {A} a.
Arguments Rejected {A} reason.
Arguments Pending {A}.

(** What [typeFunction()] returns: a constructor (or a falsy value), or a
    promise of one. *)
Inductive Reference : Type :=
| Direct (type : option Class)
| Deferred (p : Promise (option Class)).

(** What the external decorators record about a property.  The
    ["design:itemtype"] entry holds the value [typeFunction()] returned,
    the promise itself when the type is deferred. *)
Inductive MetaWrite : Type :=
| ValidateNested (target key : string) (each : bool)
| DesignItemType (target key : string) (value : Reference)
| TransformType (target key : string) (type : option Class)
| SchemaArrayRef (target key : string) (ref : string)
| SchemaItemRef (target key : string) (ref : string).

(** The external decorators may throw instead of recording. *)
Variable throws : MetaWrite -> option Reason.

Record World : Type := {
  tasks : list (Promise unit);
  metadata : list MetaWrite;
  console : list string;
}.

(** A piece of code that returns or throws. *)
Definition Action (A : Type) : Type := World -> World * (A + Reason).

Definition ret {A} (a : A) : Action A := fun w => (w, inl a).

Definition bind {A B} (m : Action A) (k : A -> Action B) : Action B :=
  fun w =>
    match m w with
    | (w', inl a) => k a w'
    | (w', inr e) => (w', inr e)
    end.

Notation "m >> k" := (bind m (fun _ => k)) (at level 62, right associativity).

Definition decorate (m : MetaWrite) : Action unit :=
  fun w =>
    match throws m with
    | Some e => (w, inr e)
    | None =>
        ({| tasks := tasks w; metadata := metadata w ++ [m]; console := console w |}, inl tt)
    end.

Definition console_error (line : string) : Action unit :=
  fun w =>
    ({| tasks := tasks w; metadata := metadata w; console := console w ++ [line] |}, inl tt).

(** [p.then(onFulfilled)] *)
Definition then_ {A B} (p : Promise A) (onFulfilled : A -> Action B) (w : World)
    : World * Promise B :=
  match p with
  | Fulfilled a =>
      match onFulfilled a w with
      | (w', inl b) => (w', Fulfilled b)
      | (w', inr e) => (w', Rejected e)
      end
  | Rejected e => (w, Rejected e)
  | Pending => (w, Pending)
  end.

(** [p.catch(onRejected)] *)
Definition catch_ {A} (p : Promise A) (onRejected : Reason -> Action A) (w : World)
    : World * Promise A :=
  match p with
  | Rejected e =>
      match onRejected e w with
      | (w', inl a) => (w', Fulfilled a)
      | (w', inr e') => (w', Rejected e')
      end
  | Fulfilled a => (w, Fulfilled a)
  | Pending => (w, Pending)
  end.

(** [Promise.all]: rejected as soon as one member is, pending while one is
    pending. *)
Fixpoint Promise_all {A} (ps : list (Promise A)) : Promise (list A) :=
  match ps with
  | [] => Fulfilled []
  | p :: rest =>
      match p, Promise_all rest with
      | Rejected e, _ => Rejected e
      | _, Rejected e => Rejected e
      | Pending, _ => Pending
      | _, Pending => Pending
      | Fulfilled a, Fulfilled l => Fulfilled (a :: l)
      end
  end.

(** [AsyncResolver.addTask] *)
Definition addTask (task : Promise unit) : Action unit :=
  fun w =>
    ({| tasks := tasks w ++ [task]; metadata := metadata w; console := console w |}, inl tt).

(** [AsyncResolver.resolveAll]: the promise the async function returns. *)
Definition resolveAll (w : World) : Promise unit :=
  if (0 <? Z.of_nat (length (tasks w))) then
    match Promise_all (tasks w) with
    | Fulfilled _ => Fulfilled tt
    | Rejected e => Rejected e
    | Pending => Pending
    end
  else Fulfilled tt.

Definition FixArrayJsonSchemaReference (reference : Class) (target key : string) : Action unit :=
  decorate (SchemaArrayRef target key ("#/components/schemas/" +:+ class_name reference)).

Definition FixItemJsonSchemaReference (reference : Class) (target key : string) : Action unit :=
  decorate (SchemaItemRef target key ("#/components/schemas/" +:+ class_name reference)).

(** A falsy [type] is [None]. *)
Definition ApplyJsonSchemaType (type : option Class) (target key : string)
    (isArray : bool) : Action unit :=
  match type with
  | Some t =>
      if isArray then FixArrayJsonSchemaReference t target key
      else FixItemJsonSchemaReference t target key
  | None => ret tt
  end.

(** The property decorator returned by [IsEntity(typeFunction, options)],
    applied to [target] and [propertyKey]. *)
Definition IsEntity (referenceType : Reference) (each : option bool)
    (target propertyKey : string) : Action unit :=
  let isArray := default false each in
  decorate (ValidateNested target propertyKey isArray) >>
  decorate (DesignItemType target propertyKey referenceType) >>
  match referenceType with
  | Deferred p =>
      fun w =>
        let '(w1, chained) :=
          then_ p (fun type =>
                     decorate (TransformType target propertyKey type) >>
                     ApplyJsonSchemaType type target propertyKey isArray) w in
        let '(w2, task) :=
          catch_ chained (fun _ =>
                     console_error ("Error resolving type for property :" +:+ propertyKey)) w1 in
        addTask task w2
  | Direct type =>
      decorate (TransformType target propertyKey type) >>
      ApplyJsonSchemaType type target propertyKey isArray
  end.

(** One use of [@IsEntity] on a property. *)
Record Decoration : Type := {
  dec_reference : Reference;
  dec_each : option bool;
  dec_target : string;
  dec_key : string;
}.

(** The decorators of a program, applied in order; one that throws ends
    the run. *)
Fixpoint decorate_all (ds : list Decoration) : Action unit :=
  match ds with
  | [] => ret tt
  | d :: rest =>
      IsEntity (dec_reference d) (dec_each d) (dec_target d) (dec_key d) >>
      decorate_all rest
  end.

Definition initial : World := {| tasks := []; metadata := []; console := [] |}.

(** The underlying type promise of a decoration has settled. *)
Definition settled (d : Decoration) : bool :=
  match dec_reference d with
  | Deferred Pending => false
  | _ => true
  end.

End Promises.

Arguments Fulfilled {Reason A} a.
Arguments Rejected {Reason A} reason.
Arguments Pending {Reason A}.
Arguments ValidateNested {Class Reason} target key each.
Arguments DesignItemType {Class Reason} target key value.
Arguments TransformType {Class Reason} target key type.
Arguments SchemaArrayRef {Class Reason} target key ref.
Arguments SchemaItemRef {Class Reason} target key ref.
Arguments Build_World {Class Reason} tasks metadata console.
Arguments tasks {Class Reason} w.
Arguments metadata {Class Reason} w.
Arguments console {Class Reason} w.
Arguments ret {Class Reason A} a w.
Arguments bind {Class Reason A B} m k w.
Arguments decorate {Class Reason} throws m w.
Arguments console_error {Class Reason} line w.
Arguments then_ {Class Reason A B} p onFulfilled w.
Arguments catch_ {Class Reason A} p onRejected w.
Arguments Promise_all {Reason A} ps.
Arguments addTask {Class Reason} task w.
Arguments resolveAll {Class Reason} w.
Arguments ApplyJsonSchemaType {Class Reason} class_name throws type target key isArray w.
Arguments Direct {Class Reason} type.
Arguments Deferred {Class Reason} p.
Arguments IsEntity {Class Reason} class_name throws referenceType each target propertyKey w.
Arguments Build_Decoration {Class Reason} dec_reference dec_each dec_target dec_key.
Arguments dec_reference {Class Reason} d.
Arguments dec_each {Class Reason} d.
Arguments dec_target {Class Reason} d.
Arguments dec_key {Class Reason} d.
Arguments decorate_all {Class Reason} class_name throws ds w.
Arguments initial {Class Reason}.
Arguments settled {Class Reason} d.

End AsyncResolver.

(** ** [toSlug] of [utils.ts]

    Over sequences of UTF-16 code units. *)

Module Utils.

Local Open Scope N_scope.

Definition is_lower (c : N) : bool := (97 <=? c) && (c <=? 122).
Definition is_upper (c : N) : bool := (65 <=? c) && (c <=? 90).
Definition is_digit (c : N) : bool := (48 <=? c) && (c <=? 57).

(** The class [[a-zA-Z0-9_.]]. *)
Definition in_class (c : N) : bool :=
  is_lower c || is_upper c || is_digit c || (c =? 95) || (c =? 46).

(** WhiteSpace and LineTerminator, which [trim] removes. *)
Definition is_white_space (c : N) : bool :=
  ((9 <=? c) && (c <=? 13)) || (c =? 32) || (c =? 160) || (c =? 5760)
  || ((8192 <=? c) && (c <=? 8202)) || (c =? 8232) || (c =? 8233)
  || (c =? 8239) || (c =? 8287) || (c =? 12288) || (c =? 65279).

Fixpoint trimStart (s : list N) : list N :=
  match s with
  | c :: t => if is_white_space c then trimStart t else s
  | [] => []
  end.

Definition trimEnd (s : list N) : list N := rev (trimStart (rev s)).

Definition trim (s : list N) : list N := trimEnd (trimStart s).

(** [.replace(/([a-z])([A-Z])/g, "$1_$2")] *)
Fixpoint replace_camel (s : list N) : list N :=
  match s with
  | a :: rest =>
      match rest with
      | b :: t =>
          if is_lower a && is_upper b then a :: 95 :: b :: replace_camel t
          else a :: replace_camel rest
      | [] => [a]
      end
  | [] => []
  end.

(** [.replace(/[^a-zA-Z0-9_.]+/g, "_")]; [in_run] tells whether the
    previous code unit was already replaced. *)
Fixpoint replace_other (in_run : bool) (s : list N) : list N :=
  match s with
  | c :: t =>
      if in_class c then c :: replace_other false t
      else if in_run then replace_other true t
      else 95 :: replace_other true t
  | [] => []
  end.

(** [toUpperCase] on the class [[a-zA-Z0-9_.]], the only code units
    [toSlug] applies it to. *)
Definition toUpperCase (s : list N) : list N :=
  map (fun c => if is_lower c then c - 32 else c) s.

Definition toSlug (str : list N) : list N :=
  toUpperCase (replace_other false (replace_camel (replace_camel (trim str)))).

(** The class [[A-Z0-9_.]], in which the result of [toSlug] lies. *)
Definition in_upper_class (c : N) : bool :=
  is_upper c || is_digit c || (c =? 95) || (c =? 46).

Definition of_string (s : string) : list N := map N_of_ascii (list_ascii_of_string s).

End Utils.

(** ** More of the middleware *)

(** [req.files] as a step leaves it. *)
Definition step_files (s : Step) : gmap string FilesEntry :=
  match s with
  | Continue st => st
  | Return _ st => st
  end.

(** The parser honoured [multerFields]: it handed over at most [maxCount]
    files under each declared name (with more it fails and gives the
    callback an error). *)
Definition within_limits (fileFields : list FileFieldMetadata)
    (raw : gmap string (list File)) : Prop :=
  forall name maxCount,
    (name, maxCount) ∈ multerFields fileFields ->
    Z.of_nat (length (received raw name)) <= maxCount.

(** ** The parser in front of the callback

    [uploadEngine.fields(multerFields)] of the external package multer, as
    far as the callback depends on it: which files it lets through under
    each name.  A request is given by its file parts, each under a field
    name, in the order of the body; a request that is not multipart is left
    alone.  The other ways the parser can fail (a malformed body, the
    limits of the body reader) are not modelled. *)

Module Multer.

(** [filesLeft]: the number of files each declared name may still take,
    [fields.forEach(field => filesLeft[field.name] = field.maxCount)]; a
    name declared twice keeps the later [maxCount]. *)
Definition filesLeft (fields : list (string * Z)) : gmap string Z :=
  foldl (fun remaining field => <[fst field := snd field]> remaining) ∅ fields.

(** [req.files[fieldname].push(file)], on an array created with the first
    file of the name. *)
Definition append_file (fieldname : string) (file : File)
    (files : gmap string (list File)) : gmap string (list File) :=
  <[fieldname := default [] (files !! fieldname) ++ [file]]> files.

(** [new MulterError('LIMIT_UNEXPECTED_FILE', file.fieldname)] *)
Definition unexpected_file : Error := ParserError "Unexpected field".

(** The file parts, one after the other, through [wrappedFileFilter]:
    a part whose name has [(filesLeft[file.fieldname] || 0) <= 0] ends the
    upload with the error; otherwise the count of the name goes down by
    one and the file is kept. *)
Fixpoint accept (remaining : gmap string Z) (parts : list (string * File))
    (files : gmap string (list File)) : option Error * gmap string (list File) :=
  match parts with
  | [] => (None, files)
  | (fieldname, file) :: rest =>
      let n := default 0 (remaining !! fieldname) in
      if n <=? 0 then (Some unexpected_file, files)
      else accept (<[fieldname := n - 1]> remaining) rest (append_file fieldname file files)
  end.

(** [uploadEngine.fields(fields)(req, res, callback)]: the error handed to
    the callback, and [req.files]. *)
Definition fields (fields : list (string * Z)) (request : option (list (string * File)))
    : option Error * option (gmap string FilesEntry) :=
  match request with
  | None => (None, None)
  | Some parts =>
      let '(err, files) := accept (filesLeft fields) parts ∅ in
      (err, Some (parsed files))
  end.

End Multer.

(** The middleware given to [UseBefore]: the parser, then the callback. *)
Definition UseMulter_middleware (bytes : string -> option Z)
    (fileFields : list FileFieldMetadata) (request : option (list (string * File)))
    : Outcome * option (gmap string FilesEntry) :=
  let '(err, req_files) := Multer.fields (multerFields fileFields) request in
  UseMulter_callback bytes fileFields err req_files.

(** The files a request carries under a name, in the order of the body. *)
Definition sent (parts : list (string * File)) (name : string) : list File :=
  snd <$> filter (fun part => fst part = name) parts.

(** [@IsFiles({ fieldName: name, maxFiles: max }) list] *)
Definition listed (name : string) (max : option Z) : FileFieldMetadata :=
  {| propertyKey := "list"; isArray := true;
     options :=
       {| fieldName := Some name; required := false; maxSize := None; minSize := None;
          maxFiles := max; minFiles := None; mimeTypes := None |} |}.

(** ** The schema emitted by [UseMulter]

    The function given to [OpenAPI(...)].  [Other] stands for whatever else
    the objects hold: the schema of a property that is not a file, the
    other members of a schema, a request body or an operation. *)

Module OpenApi.

Section Emission.

Variable Other : Type.

(** [{ type: "string", format: "binary" }] *)
Record Items : Type := {
  items_type : string;
  items_format : string;
}.

(** The object stored under a file field's name. *)
Record FileProperty : Type := {
  prop_type : string;
  prop_format : option string;
  prop_description : string;
  prop_items : option Items;
  minItems : option Z;
  maxItems : option Z;
}.

Inductive Property : Type :=
| FileField (p : FileProperty)
| Generated (s : Other).

(** A schema of [validationMetadatasToSchemas]. *)
Record Schema : Type := {
  schema_type : option string;
  properties : option (gmap string Property);
  schema_rest : option Other;
}.

(** A member of [requestBody.content]. *)
Inductive MediaType : Type :=
| WithSchema (s : Schema)
| OtherMedia (m : Other).

Record RequestBody : Type := {
  content : option (gmap string MediaType);
  body_rest : option Other;
}.

Record Operation : Type := {
  requestBody : option RequestBody;
  operation_rest : option Other;
}.

(** [x && ...] on an optional count: the count when it is truthy. *)
Definition when_truthy (n : option Z) : option Z :=
  match n with
  | Some z => if truthy_number (Num z) then Some z else None
  | None => None
  end.

(** The object assigned to [dtoSchema.properties[fieldName]]. *)
Definition file_property (meta : FileFieldMetadata) : FileProperty :=
  if isArray meta then
    {| prop_type := "array"; prop_format := None;
       prop_description := generateFileDescription (options meta) true;
       prop_items := Some {| items_type := "string"; items_format := "binary" |};
       minItems := when_truthy (minFiles (options meta));
       maxItems := when_truthy (maxFiles (options meta)) |}
  else
    {| prop_type := "string"; prop_format := Some "binary";
       prop_description := generateFileDescription (options meta) false;
       prop_items := None; minItems := None; maxItems := None |}.

(** [properties[name] = value] on a plain object, as it shows in the
    object's own properties: the name ["__proto__"] reaches the setter
    inherited from [Object.prototype] and adds no property. *)
Definition assign_property {A} (name : string) (value : A) (props : gmap string A)
    : gmap string A :=
  if decide (name = "__proto__") then props else <[name := value]> props.

(** [for (const meta of fileFields) dtoSchema.properties[fieldName] = ...] *)
Fixpoint add_file_properties (fileFields : list FileFieldMetadata)
    (props : gmap string Property) : gmap string Property :=
  match fileFields with
  | [] => props
  | meta :: rest =>
      add_file_properties rest
        (assign_property (field_name meta) (FileField (file_property meta)) props)
  end.

Definition schema_not_found (dtoName : string) : string :=
  "Schema for " +:+ dtoName +:+ " not found. Make sure the class is decorated with class-validator, reflect-metadata, and the schema generation is called appropriately.".

(** [object[name]] on a plain object: the object's own property, or else
    the member of [Object.prototype] of that name. *)
Definition get_property {A} (own inherited : gmap string A) (name : string) : option A :=
  match own !! name with
  | Some v => Some v
  | None => inherited !! name
  end.

(** The names [Object.prototype] has members under. *)
Definition Object_prototype_names : list string :=
  [ "constructor"; "__defineGetter__"; "__defineSetter__"; "hasOwnProperty";
    "__lookupGetter__"; "__lookupSetter__"; "isPrototypeOf"; "propertyIsEnumerable";
    "toString"; "valueOf"; "__proto__"; "toLocaleString" ].

(** The members of [Object.prototype] read as schema objects, as they are
    before anything is assigned to them: functions (and the prototype
    itself), all truthy, with no [type] and no [properties]. *)
Definition Object_prototype : gmap string Schema :=
  list_to_map
    ((fun name => (name, {| schema_type := None; properties := None; schema_rest := None |}))
       <$> Object_prototype_names).

(** [(operation) => { ... }] for a class named [dtoName], where [schemas]
    holds the own properties of what [validationMetadatasToSchemas]
    returned and [inherited] what its prototype holds: the operation
    returned, or the message of the error thrown and the operation as it
    is left. *)
Definition UseMulter_openapi (dtoName : string) (schemas inherited : gmap string Schema)
    (fileFields : list FileFieldMetadata) (operation : Operation)
    : Operation + string * Operation :=
  let body := default {| content := None; body_rest := None |} (requestBody operation) in
  let media := default ∅ (content body) in
  match get_property schemas inherited dtoName with
  | None =>
      inr (schema_not_found dtoName,
           {| requestBody := Some {| content := Some media; body_rest := body_rest body |};
              operation_rest := operation_rest operation |})
  | Some dtoSchema =>
      let schema :=
        {| schema_type := Some "object";
           properties :=
             Some (add_file_properties fileFields (default ∅ (properties dtoSchema)));
           schema_rest := schema_rest dtoSchema |} in
      inl {| requestBody :=
               Some {| content := Some (<["multipart/form-data" := WithSchema schema]> media);
                       body_rest := body_rest body |};
             operation_rest := operation_rest operation |}
  end.

End Emission.

Arguments FileField {Other} p.
Arguments Generated {Other} s.
Arguments WithSchema {Other} s.
Arguments OtherMedia {Other} m.
Arguments Build_Schema {Other} schema_type properties schema_rest.
Arguments schema_type {Other} s.
Arguments properties {Other} s.
Arguments schema_rest {Other} s.
Arguments Build_RequestBody {Other} content body_rest.
Arguments content {Other} r.
Arguments body_rest {Other} r.
Arguments Build_Operation {Other} requestBody operation_rest.
Arguments requestBody {Other} o.
Arguments operation_rest {Other} o.
Arguments add_file_properties {Other} fileFields props.
Arguments Object_prototype {Other}.
Arguments UseMulter_openapi {Other} dtoName schemas inherited fileFields operation.

End OpenApi.

(** ** [BodyMultipart]

    The value of the parameter decorator.  [V] is a value of [req.body]
    and [toDTO] the conversion of [utils.ts], which belongs to
    class-transformer. *)

Module Multipart.

Section BodyMultipart.

Variable V : Type.
Variable T : Type.
Variable toDTO : T -> gmap string V -> gmap string V.

(** [req.files]: absent, the array of [upload.any()], or the object of
    [upload.fields(...)]. *)
Inductive ReqFiles : Type :=
| FilesAbsent
| FilesList (l : list File)
| FilesObject (m : gmap string FilesEntry).

(** A member of the merged object. *)
Inductive DataValue : Type :=
| BodyValue (v : V)
| FileList (l : list File)
| FileEntry (e : FilesEntry).

Definition BodyMultipart (type : option T) (body : option (gmap string V))
    (files : ReqFiles) : gmap string DataValue :=
  let bodyData :=
    match type with
    | Some t => toDTO t (default ∅ body)
    | None => default ∅ body
    end in
  match files with
  | FilesList l => <["files" := FileList l]> (BodyValue <$> bodyData)
  | FilesObject m => (FileEntry <$> m) ∪ (BodyValue <$> bodyData)
  | FilesAbsent => BodyValue <$> bodyData
  end.

End BodyMultipart.

Arguments FilesAbsent : clear implicits.
Arguments FilesList l : clear implicits.
Arguments FilesObject m : clear implicits.
Arguments BodyValue {V} v.
Arguments FileList {V} l.
Arguments FileEntry {V} e.
Arguments BodyMultipart {V T} toDTO type body files.

End Multipart.

(** ** [getEnumValues] of [utils.ts] *)

Module Enums.

Definition is_digit (c : ascii) : bool :=
  let n := N_of_ascii c in ((48 <=? n) && (n <=? 57))%N.

Definition is_hex_digit (c : ascii) : bool :=
  let n := N_of_ascii c in
  (((48 <=? n) && (n <=? 57)) || ((65 <=? n) && (n <=? 70)) || ((97 <=? n) && (n <=? 102)))%N.

Definition is_octal_digit (c : ascii) : bool :=
  let n := N_of_ascii c in ((48 <=? n) && (n <=? 55))%N.

Definition is_binary_digit (c : ascii) : bool :=
  let n := N_of_ascii c in ((48 <=? n) && (n <=? 49))%N.

(** One or more characters, all of one kind. *)
Definition some_of (kind : ascii -> bool) (l : list ascii) : bool :=
  match l with
  | [] => false
  | _ :: _ => forallb kind l
  end.

(** The rest of a list after its leading decimal digits. *)
Fixpoint drop_digits (l : list ascii) : list ascii :=
  match l with
  | c :: t => if is_digit c then drop_digits t else l
  | [] => []
  end.

(** Does a list start with a decimal digit? *)
Definition starts_with_digit (l : list ascii) : bool :=
  match l with
  | c :: _ => is_digit c
  | [] => false
  end.

(** ExponentPart, optional, then the end of the literal. *)
Definition exponent_then_end (l : list ascii) : bool :=
  match l with
  | [] => true
  | e :: r =>
      (Ascii.eqb e "e" || Ascii.eqb e "E") &&
      match r with
      | "+"%char :: t | "-"%char :: t => some_of is_digit t
      | _ => some_of is_digit r
      end
  end.

(** StrUnsignedDecimalLiteral. *)
Definition unsigned_decimal (l : list ascii) : bool :=
  if bool_decide (l = list_ascii_of_string "Infinity") then true
  else
    match drop_digits l with
    | "."%char :: r => (starts_with_digit l || starts_with_digit r) && exponent_then_end (drop_digits r)
    | r => starts_with_digit l && exponent_then_end r
    end.

(** NonDecimalIntegerLiteral. *)
Definition non_decimal (l : list ascii) : bool :=
  match l with
  | "0"%char :: p :: r =>
      if Ascii.eqb p "x" || Ascii.eqb p "X" then some_of is_hex_digit r
      else if Ascii.eqb p "o" || Ascii.eqb p "O" then some_of is_octal_digit r
      else if Ascii.eqb p "b" || Ascii.eqb p "B" then some_of is_binary_digit r
      else false
  | _ => false
  end.

Definition trim_chars (l : list ascii) : list ascii :=
  let drop := fix drop (l : list ascii) : list ascii :=
    match l with
    | c :: t => if Bytes.is_whitespace c then drop t else l
    | [] => []
    end in
  rev (drop (rev (drop l))).

(** [!isNaN(Number(key))] for a string: the string is a
    StringNumericLiteral. *)
Definition is_numeric (key : string) : bool :=
  let l := trim_chars (list_ascii_of_string key) in
  match l with
  | [] => true
  | "+"%char :: r | "-"%char :: r => unsigned_decimal r
  | _ => non_decimal l || unsigned_decimal l
  end.

(** A property value: a string, a number, or anything else. *)
Inductive EnumValue : Type :=
| StringValue (s : string)
| NumberValue (n : Z)
| OtherValue.

(** [typeof value === 'string'] *)
Definition as_string (v : EnumValue) : option string :=
  match v with
  | StringValue s => Some s
  | _ => None
  end.

(** [Array.from(new Set(xs))]: the first occurrence of each string, in
    order; [seen] holds what the set has. *)
Fixpoint from_set (seen xs : list string) : list string :=
  match xs with
  | [] => []
  | x :: t =>
      if bool_decide (x ∈ seen) then from_set seen t
      else x :: from_set (x :: seen) t
  end.

(** The strings under the keys that are not numeric, in key order. *)
Definition string_values (enumType : list (string * EnumValue)) : list string :=
  omap as_string (map snd (List.filter (fun kv => negb (is_numeric (fst kv))) enumType)).

(** [getEnumValues(enumType)], the object given by its own enumerable
    properties in the order of [Object.keys]. *)
Definition getEnumValues (enumType : list (string * EnumValue)) : list string :=
  from_set [] (string_values enumType).

(** The properties of an array: its indices as keys. *)
Definition array_properties (values : list EnumValue) : list (string * EnumValue) :=
  imap (fun i v => (pretty (N.of_nat i), v)) values.

End Enums.

(** ** [RequestGuard] and [RequestResolver] of [decorators.ts]

    The awaited call is given by its eventual state; a synchronous throw
    is a rejection.  [next] and the response are taken not to throw. *)

Module Guards.

Section Guards.

Variable Reason : Type.

(** What the validator returned: [true], or anything else, of which only
    [message] and [status] are read. *)
Inductive Verdict : Type :=
| Allowed
| Refused (message : option string) (status : option number).

(** What the middleware does with the request. *)
Inductive Handled : Type :=
| CallsNext
| Sends (status : number) (body_status : number) (body_message : string)
| Waits.

Definition RequestGuard (isValid : AsyncResolver.Promise Reason Verdict) : Handled :=
  match isValid with
  | AsyncResolver.Fulfilled Allowed => CallsNext
  | AsyncResolver.Fulfilled (Refused message status) =>
      let message :=
        match message with
        | Some m => if truthy_string m then m else "Access denied: Invalid data"
        | None => "Access denied: Invalid data"
        end in
      let status :=
        match status with
        | Some s => if truthy_number s then s else Num 403
        | None => Num 403
        end in
      Sends status status message
  | AsyncResolver.Rejected _ => Sends (Num 500) (Num 500) "Server error during validation"
  | AsyncResolver.Pending => Waits
  end.

(** The extracted data, the DTO class and the conversion of
    class-transformer, which may throw. *)
Variable Raw : Type.
Variable Dto : Type.
Variable DtoClass : Type.
Variable truthy_raw : Raw -> bool.
Variable toDTO : DtoClass -> Raw -> Dto + Reason.

Inductive Resolved : Type :=
| Null
| Converted (d : Dto)
| Unconverted (rawData : Raw).

Definition RequestResolver (dtoClass : option DtoClass)
    (rawData : AsyncResolver.Promise Reason Raw) : AsyncResolver.Promise Reason Resolved :=
  match rawData with
  | AsyncResolver.Fulfilled raw =>
      if negb (truthy_raw raw) then AsyncResolver.Fulfilled Null
      else
        match dtoClass with
        | Some cls =>
            match toDTO cls raw with
            | inl d => AsyncResolver.Fulfilled (Converted d)
            | inr _ => AsyncResolver.Fulfilled Null
            end
        | None => AsyncResolver.Fulfilled (Unconverted raw)
        end
  | AsyncResolver.Rejected _ => AsyncResolver.Fulfilled Null
  | AsyncResolver.Pending => AsyncResolver.Pending
  end.

End Guards.

Arguments Allowed : clear implicits.
Arguments CallsNext : clear implicits.
Arguments Waits : clear implicits.
Arguments RequestGuard {Reason} isValid.
Arguments Null {Raw Dto}.
Arguments Converted {Raw Dto} d.
Arguments Unconverted {Raw Dto} rawData.
Arguments RequestResolver {Reason Raw Dto DtoClass} truthy_raw toDTO dtoClass rawData.

End Guards.

(** ** The file-field metadata of a class

    [Reflect.getMetadata] reads the metadata of the constructor or, failing
    that, of the nearest superclass that has some; the value is an array,
    kept here in [arrays] and named by its index. *)

Module Metadata.

(** A class: its name and its superclasses, nearest first. *)
Record Class : Type := {
  class_id : string;
  superclasses : list string;
}.

Record Registry : Type := {
  own : gmap string nat;
  arrays : list (list FileFieldMetadata);
}.

Definition empty : Registry := {| own := ∅; arrays := [] |}.

(** The first class of a prototype chain with metadata of its own. *)
Fixpoint lookup_chain (own : gmap string nat) (chain : list string) : option nat :=
  match chain with
  | [] => None
  | c :: rest =>
      match own !! c with
      | Some r => Some r
      | None => lookup_chain own rest
      end
  end.

(** [Reflect.getMetadata(FILE_FIELDS_METADATA, cls)]: the array, by name. *)
Definition getMetadata (cls : Class) (reg : Registry) : option nat :=
  lookup_chain (own reg) (class_id cls :: superclasses cls).

(** [storeFileFieldMetadata(target, propertyKey, isArray, options)], where
    [cls] is [target.constructor]. *)
Definition storeFileFieldMetadata (cls : Class) (key : string) (array : bool)
    (o : FileFieldOptions) (reg : Registry) : Registry :=
  let meta := {| propertyKey := key; isArray := array; options := o |} in
  match getMetadata cls reg with
  | Some r =>
      {| own := <[class_id cls := r]> (own reg);
         arrays := alter (fun existing => existing ++ [meta]) r (arrays reg) |}
  | None =>
      {| own := <[class_id cls := length (arrays reg)]> (own reg);
         arrays := arrays reg ++ [[meta]] |}
  end.

(** [getFileFieldsMetadata(dtoClass)] *)
Definition getFileFieldsMetadata (cls : Class) (reg : Registry) : list FileFieldMetadata :=
  match getMetadata cls reg with
  | Some r => default [] (arrays reg !! r)
  | None => []
  end.

(** What the decorators of class-validator and of
    class-validator-jsonschema are asked to record for a property. *)
Inductive ValidationWrite : Type :=
| IsOptional (cls key : string)
| IsDefined (cls key : string)
| IsArray (cls key : string)
| JSONSchema (cls key : string) (type : string) (format : option string)
    (description : string) (items : bool).

Record Decorated : Type := {
  registry : Registry;
  validation : list ValidationWrite;
}.

(** The property decorator of [IsFile(options)] on [propertyKey]. *)
Definition IsFile (o : FileFieldOptions) (cls : Class) (key : string)
    (s : Decorated) : Decorated :=
  {| registry := storeFileFieldMetadata cls key false o (registry s);
     validation :=
       validation s
       ++ [if required o then IsDefined (class_id cls) key else IsOptional (class_id cls) key;
           JSONSchema (class_id cls) key "string" (Some "binary")
             (generateFileDescription o false) false] |}.

(** The property decorator of [IsFiles(options)] on [propertyKey]. *)
Definition IsFiles (o : FileFieldOptions) (cls : Class) (key : string)
    (s : Decorated) : Decorated :=
  {| registry := storeFileFieldMetadata cls key true o (registry s);
     validation :=
       validation s
       ++ [if required o then IsDefined (class_id cls) key else IsOptional (class_id cls) key;
           IsArray (class_id cls) key;
           JSONSchema (class_id cls) key "array" None
             (generateFileDescription o true) true] |}.

(** A decorated property of a class: [@IsFile] or [@IsFiles] ([many]). *)
Record Declaration : Type := {
  many : bool;
  decl_key : string;
  decl_options : FileFieldOptions;
}.

Definition declared (d : Declaration) : FileFieldMetadata :=
  {| propertyKey := decl_key d; isArray := many d; options := decl_options d |}.

(** The decorators of the properties of one class, in declaration order. *)
Fixpoint decorate_class (cls : Class) (ds : list Declaration) (s : Decorated) : Decorated :=
  match ds with
  | [] => s
  | d :: rest =>
      decorate_class cls rest
        (if many d then IsFiles (decl_options d) cls (decl_key d) s
         else IsFile (decl_options d) cls (decl_key d) s)
  end.

(** Every array named by the registry exists. *)
Definition well_formed (reg : Registry) : Prop :=
  forall c r, own reg !! c = Some r -> (r < length (arrays reg))%nat.

End Metadata.

(** ** Shapes of code-unit sequences, for [toSlug] *)

(** No lowercase letter is followed by an uppercase letter: the pattern
    [/([a-z])([A-Z])/] matches nowhere. *)
Fixpoint humpless (s : list N) : bool :=
  match s with
  | a :: rest =>
      match rest with
      | b :: _ => negb (Utils.is_lower a && Utils.is_upper b) && humpless rest
      | [] => true
      end
  | [] => true
  end.

(** Only white space and line terminators. *)
Definition blank (s : list N) : bool := forallb Utils.is_white_space s.

(** The entry under [name] reads as the files [fs] the parser grouped
    there: it is the parser's array still, or what an earlier declaration
    of the name left of it, the absent value for no file or the first
    file. *)
Definition read_as (st : gmap string FilesEntry) (name : string) (fs : list File) : Prop :=
  untouched st name fs
  \/ (st !! name = Some Undefined /\ fs = [])
  \/ (exists first rest, st !! name = Some (OneFile first) /\ fs = first :: rest).

(** * Properties *)

(** ** One field against an untouched entry *)

Section FieldStep.

Variable bytes : string -> option Z.

Lemma untouched_parsed (raw : gmap string (list File)) (name : string) :
  untouched (parsed raw) name (received raw name).
Proof.
  unfold untouched, parsed, received. rewrite lookup_fmap.
  destruct (raw !! name) as [fs|]; simpl; auto.
Qed.

Lemma untouched_written (meta : FileFieldMetadata) (fs0 : list File)
    (st : gmap string FilesEntry) (name : string) (fs : list File) :
  field_name meta <> name ->
  untouched st name fs -> untouched (written meta fs0 st) name fs.
Proof.
  intros Hne Hu. unfold untouched, written in *.
  destruct fs0; [destruct (required (options meta)) | destruct (isArray meta)];
    rewrite ?lookup_insert_ne by done; exact Hu.
Qed.

Lemma file_loop_array (o : FileFieldOptions) (fs : list File)
    (st : gmap string FilesEntry) :
  file_loop bytes o (Some (FileArray fs)) st = step_of (check_files bytes o fs) st.
Proof. unfold file_loop, step_of. destruct (check_files bytes o fs); reflexivity. Qed.

(** On an untouched entry one pass of the loop body reports the field's
    first violation and leaves [written] behind. *)
Lemma process_field_untouched (meta : FileFieldMetadata)
    (st : gmap string FilesEntry) (fs : list File) :
  untouched st (field_name meta) fs ->
  process_field bytes meta st =
    step_of (field_violation bytes meta fs) (written meta fs st).
Proof.
  intros [Hst | [Hst ->]]; unfold process_field, field_violation, rule_missing,
    rule_cardinality, rule_files, written, normalized; rewrite Hst.
  - destruct fs as [|first rest].
    + simpl. destruct (required (options meta)); [reflexivity|].
      destruct (isArray meta); reflexivity.
    + replace (not_files (Some (FileArray (first :: rest)))
               || length_is_zero (Some (FileArray (first :: rest)))) with false
        by reflexivity.
      replace (length_is_zero (Some (FileArray (first :: rest)))) with false
        by reflexivity.
      rewrite andb_false_r.
      destruct (isArray meta).
      * destruct (below_minFiles (options meta) _); [reflexivity|].
        destruct (above_maxFiles (options meta) _); [reflexivity|].
        apply file_loop_array.
      * apply file_loop_array.
  - simpl. destruct (required (options meta)); [reflexivity|].
    destruct (isArray meta); reflexivity.
Qed.

End FieldStep.

(** ** The loop against the parser's groups *)

Section Loop.

Variable bytes : string -> option Z.
Variable raw : gmap string (list File).

Lemma all_untouched_parsed (fileFields : list FileFieldMetadata) :
  all_untouched raw fileFields (parsed raw).
Proof. intros m _. apply untouched_parsed. Qed.

(** With pairwise distinct field names the loop is the reference: it ends
    with the first violation, or falls through when there is none. *)
Lemma validate_fields_untouched (fileFields : list FileFieldMetadata) :
  forall st,
    NoDup (field_name <$> fileFields) ->
    all_untouched raw fileFields st ->
    validate_fields bytes fileFields st =
      step_of (first_violation bytes fileFields raw)
              (written_until bytes fileFields raw st).
Proof.
  induction fileFields as [|meta rest IH]; intros st Hnd Hu; [reflexivity|].
  rewrite fmap_cons in Hnd. apply NoDup_cons in Hnd as [Hfresh Hnd].
  simpl. rewrite (process_field_untouched bytes meta st (received raw (field_name meta)))
    by (apply Hu; left).
  destruct (field_violation bytes meta (received raw (field_name meta))) as [e|];
    [reflexivity|].
  simpl. apply IH; [exact Hnd|].
  intros m Hm. apply untouched_written.
  - intros Heq. apply Hfresh. rewrite Heq. apply list_elem_of_fmap. eauto.
  - apply Hu. by right.
Qed.

Lemma first_violation_app (pre post : list FileFieldMetadata) :
  first_violation bytes (pre ++ post) raw =
    match first_violation bytes pre raw with
    | Some e => Some e
    | None => first_violation bytes post raw
    end.
Proof.
  induction pre as [|m pre IH]; [reflexivity|]. simpl.
  destruct (field_violation bytes m (received raw (field_name m))); [reflexivity|exact IH].
Qed.

Lemma written_until_app (pre post : list FileFieldMetadata) :
  forall st,
    first_violation bytes pre raw = None ->
    written_until bytes (pre ++ post) raw st =
      written_until bytes post raw (written_until bytes pre raw st).
Proof.
  induction pre as [|m pre IH]; intros st Hv; [reflexivity|]. simpl in *.
  destruct (field_violation bytes m (received raw (field_name m))); [discriminate|].
  by apply IH.
Qed.

Lemma written_other (meta : FileFieldMetadata) (fs : list File)
    (st : gmap string FilesEntry) (name : string) :
  field_name meta <> name -> written meta fs st !! name = st !! name.
Proof.
  intros Hne. unfold written.
  destruct fs; [destruct (required (options meta)) | destruct (isArray meta)];
    rewrite ?lookup_insert_ne by done; reflexivity.
Qed.

Lemma written_until_other (fileFields : list FileFieldMetadata) (name : string) :
  forall st,
    name ∉ (field_name <$> fileFields) ->
    written_until bytes fileFields raw st !! name = st !! name.
Proof.
  induction fileFields as [|m rest IH]; intros st Hn; [reflexivity|].
  rewrite fmap_cons in Hn. apply not_elem_of_cons in Hn as [Hne Hn]. simpl.
  destruct (field_violation bytes m (received raw (field_name m))).
  - by apply written_other.
  - rewrite IH by done. by apply written_other.
Qed.

(** A field that passed has its normalized shape in [req.files]. *)
Lemma written_passed (meta : FileFieldMetadata) (st : gmap string FilesEntry) :
  untouched st (field_name meta) (received raw (field_name meta)) ->
  field_violation bytes meta (received raw (field_name meta)) = None ->
  written meta (received raw (field_name meta)) st !! field_name meta =
    Some (normalized meta (received raw (field_name meta))).
Proof.
  intros Hu Hv. unfold written, field_violation, rule_missing in *.
  destruct (received raw (field_name meta)) as [|first rest].
  - destruct (required (options meta)); [discriminate|]. apply lookup_insert_eq.
  - destruct (isArray meta) eqn:Harr.
    + destruct Hu as [Hu | [_ ?]]; [|discriminate].
      rewrite Hu. unfold normalized. by rewrite Harr.
    + apply lookup_insert_eq.
Qed.

Lemma written_until_passed (fileFields : list FileFieldMetadata) :
  forall st m,
    NoDup (field_name <$> fileFields) ->
    all_untouched raw fileFields st ->
    first_violation bytes fileFields raw = None ->
    m ∈ fileFields ->
    written_until bytes fileFields raw st !! field_name m =
      Some (normalized m (received raw (field_name m))).
Proof.
  induction fileFields as [|meta rest IH]; intros st m Hnd Hu Hv Hm.
  { by apply elem_of_nil in Hm. }
  rewrite fmap_cons in Hnd. apply NoDup_cons in Hnd as [Hfresh Hnd].
  simpl in *.
  destruct (field_violation bytes meta (received raw (field_name meta))) eqn:Hf;
    [discriminate|].
  apply elem_of_cons in Hm as [-> | Hm].
  - rewrite written_until_other by done.
    apply written_passed; [apply Hu; left | exact Hf].
  - apply IH; try done.
    intros m' Hm'. apply untouched_written; [|apply Hu; by right].
    intros Heq. apply Hfresh. rewrite Heq. apply list_elem_of_fmap. eauto.
Qed.

End Loop.

(** ** The callback *)

Lemma callback_parsed (bytes : string -> option Z)
    (fileFields : list FileFieldMetadata) (raw : gmap string (list File)) :
  NoDup (field_name <$> fileFields) ->
  UseMulter_callback bytes fileFields None (Some (parsed raw)) =
    (match first_violation bytes fileFields raw with
     | Some e => NextErr e
     | None => Next
     end,
     Some (written_until bytes fileFields raw (parsed raw))).
Proof.
  intros Hnd. unfold UseMulter_callback.
  rewrite (validate_fields_untouched bytes raw) by (done || apply all_untouched_parsed).
  destruct (first_violation bytes fileFields raw); reflexivity.
Qed.

(** Once the loop has left the callback, later fields are not looked at. *)
Lemma validate_fields_return_app (bytes : string -> option Z)
    (fileFields post : list FileFieldMetadata) (st st' : gmap string FilesEntry)
    (o : Outcome) :
  validate_fields bytes fileFields st = Return o st' ->
  validate_fields bytes (fileFields ++ post) st = Return o st'.
Proof.
  revert st. induction fileFields as [|m rest IH]; intros st H; simpl in *.
  - discriminate.
  - destruct (process_field bytes m st); [by apply IH | exact H].
Qed.

Lemma NoDup_app_l_names (pre post : list FileFieldMetadata) :
  NoDup (field_name <$> (pre ++ post)) -> NoDup (field_name <$> pre).
Proof. rewrite fmap_app. intros H. by apply NoDup_app in H as [? _]. Qed.

(** An entry without files stays without files while the loop goes on. *)
Lemma process_field_keeps_empty (bytes : string -> option Z)
    (m : FileFieldMetadata) (st st' : gmap string FilesEntry) (name : string) :
  process_field bytes m st = Continue st' ->
  not_files (st !! name) || length_is_zero (st !! name) = true ->
  not_files (st' !! name) || length_is_zero (st' !! name) = true.
Proof.
  unfold process_field, file_loop. intros Hstep Hempty.
  destruct (decide (field_name m = name)) as [Heq | Hne].
  - subst name. cbv zeta in Hstep. rewrite Hempty in Hstep.
    destruct (required (options m)); [discriminate|].
    destruct (isArray m); injection Hstep as <-; by rewrite lookup_insert_eq.
  - assert (Hsame : forall v, <[field_name m := v]> st !! name = st !! name)
      by (intros v; by apply lookup_insert_ne).
    repeat (case_match; try discriminate);
      injection Hstep as <-; by rewrite ?Hsame.
Qed.

Lemma validate_fields_keeps_empty (bytes : string -> option Z)
    (fileFields : list FileFieldMetadata) (name : string) :
  forall st st',
    validate_fields bytes fileFields st = Continue st' ->
    not_files (st !! name) || length_is_zero (st !! name) = true ->
    not_files (st' !! name) || length_is_zero (st' !! name) = true.
Proof.
  induction fileFields as [|m rest IH]; intros st st' Hrun Hempty; simpl in Hrun.
  - by injection Hrun as <-.
  - destruct (process_field bytes m st) as [st1|] eqn:Hstep; [|discriminate].
    apply (IH st1 st' Hrun). by apply (process_field_keeps_empty bytes m st).
Qed.

Lemma validate_fields_continue_app (bytes : string -> option Z)
    (pre post : list FileFieldMetadata) (st st1 : gmap string FilesEntry) :
  validate_fields bytes pre st = Continue st1 ->
  validate_fields bytes (pre ++ post) st = validate_fields bytes post st1.
Proof.
  revert st. induction pre as [|m pre IH]; intros st H; simpl in *.
  - by injection H as <-.
  - destruct (process_field bytes m st); [by apply IH | discriminate].
Qed.

(** C1, as the middleware has it.  A required field without files rejects
    the request with "No files uploaded for field: <fieldName>" when
    [req.files] exists (empty or not) and the loop gets past every field
    declared before it; the fields declared after it have no say.  When
    [req.files] is absent the middleware calls [next()] at once and nothing
    is rejected. *)
Theorem required_field_without_files (bytes : string -> option Z)
    (pre post : list FileFieldMetadata) (meta : FileFieldMetadata)
    (raw : gmap string (list File)) (st : gmap string FilesEntry) :
  validate_fields bytes pre (parsed raw) = Continue st ->
  required (options meta) = true ->
  received raw (field_name meta) = [] ->
  UseMulter_callback bytes (pre ++ meta :: post) None (Some (parsed raw))
    = (NextErr (NoFilesUploaded (field_name meta)), Some st)
  /\ message (NoFilesUploaded (field_name meta))
    = "No files uploaded for field: " +:+ field_name meta
  /\ UseMulter_callback bytes (pre ++ meta :: post) None None = (Next, None).
Proof.
  intros Hpre Hreq Hnone. split; [|split; reflexivity].
  unfold UseMulter_callback.
  rewrite (validate_fields_continue_app bytes pre (meta :: post) _ st Hpre).
  assert (Hempty : not_files (st !! field_name meta)
                   || length_is_zero (st !! field_name meta) = true).
  { apply (validate_fields_keeps_empty bytes pre (field_name meta) (parsed raw) st Hpre).
    unfold parsed, received in *. rewrite lookup_fmap.
    destruct (raw !! field_name meta) as [fs|]; simpl in *; [by subst|reflexivity]. }
  simpl. unfold process_field. by rewrite Hempty, Hreq.
Qed.

Lemma required_field_without_files_witness :
  UseMulter_callback Bytes.bytes ([docs; cover] ++ avatar :: [attachments]) None
    (Some (parsed {[ "docs" := [png "a.png" 10; png "b.png" 20] ]}))
    = (NextErr (NoFilesUploaded "avatar"),
       Some {[ "docs" := FileArray [png "a.png" 10; png "b.png" 20];
               "cover" := Undefined ]})
  /\ message (NoFilesUploaded "avatar") = "No files uploaded for field: avatar"
  /\ UseMulter_callback Bytes.bytes ([docs; cover] ++ avatar :: [attachments]) None None
     = (Next, None).
Proof.
  apply (required_field_without_files Bytes.bytes [docs; cover] [attachments] avatar
           {[ "docs" := [png "a.png" 10; png "b.png" 20] ]}).
  - vm_compute. reflexivity.
  - reflexivity.
  - vm_compute. reflexivity.
Defined.

(** C1 fails as stated: with [req.files] absent (a request that is not
    multipart) the required field [avatar] receives no file and the request
    is accepted; and with a container, an earlier field's violation is
    reported in place of the missing required field. *)
Lemma required_field_not_always_reported :
  required (options avatar) = true
  /\ UseMulter_callback Bytes.bytes [avatar] None None = (Next, None)
  /\ fst (UseMulter_callback Bytes.bytes [docs; avatar] None
            (Some (parsed {[ "docs" := [png "a.png" 10] ]})))
     = NextErr (TooFewFiles "docs" 2).
Proof. repeat split; vm_compute; reflexivity. Qed.

Lemma head_app_first {A} (l1 l2 : list A) :
  head (l1 ++ l2) = match head l1 with Some a => Some a | None => head l2 end.
Proof. by destruct l1. Qed.

Lemma check_files_head (bytes : string -> option Z) (o : FileFieldOptions)
    (fs : list File) :
  check_files bytes o fs = head (flat_map (file_violations bytes o) fs).
Proof.
  induction fs as [|f rest IH]; [reflexivity|]. simpl.
  rewrite head_app_first, <- IH. unfold check_file, file_violations.
  destruct (too_small bytes o f); [reflexivity|].
  destruct (too_large bytes o f); [reflexivity|].
  destruct (bad_type o f); reflexivity.
Qed.

(** The first violated rule of a field is the head of its violations. *)
Lemma field_violation_head (bytes : string -> option Z) (meta : FileFieldMetadata)
    (fs : list File) :
  field_violation bytes meta fs = head (field_violations bytes meta fs).
Proof.
  unfold field_violation, field_violations, rule_missing, rule_cardinality, rule_files.
  destruct fs as [|f rest]; [by destruct (required (options meta))|].
  rewrite head_app_first, <- check_files_head.
  destruct (isArray meta); [|reflexivity].
  destruct (below_minFiles _ _); [reflexivity|].
  destruct (above_maxFiles _ _); reflexivity.
Qed.

Lemma first_violation_head (bytes : string -> option Z)
    (fileFields : list FileFieldMetadata) (raw : gmap string (list File)) :
  first_violation bytes fileFields raw = head (all_violations bytes fileFields raw).
Proof.
  induction fileFields as [|m rest IH]; [reflexivity|].
  unfold all_violations in *. simpl.
  by rewrite head_app_first, <- IH, field_violation_head.
Qed.

(** C5, as the middleware has it.  With pairwise distinct field names the
    outcome of the middleware is acceptance when no rule is violated, and
    otherwise exactly the first error of the list of all violations, taken
    field by field in declaration order and, within a field, in the order
    missing-required, cardinality, then size-min, size-max, MIME for each
    file in file order; nothing else of that list is reported.  Without
    [req.files] the outcome is acceptance. *)
Theorem validation_short_circuits (bytes : string -> option Z)
    (fileFields : list FileFieldMetadata) (raw : gmap string (list File)) :
  NoDup (field_name <$> fileFields) ->
  fst (UseMulter_callback bytes fileFields None (Some (parsed raw))) =
    match head (all_violations bytes fileFields raw) with
    | Some e => NextErr e
    | None => Next
    end
  /\ fst (UseMulter_callback bytes fileFields None None) = Next.
Proof.
  intros Hnd. split; [|reflexivity].
  by rewrite callback_parsed, first_violation_head.
Qed.

Lemma validation_short_circuits_witness :
  fst (UseMulter_callback Bytes.bytes [cover; docs; avatar] None
         (Some (parsed {[ "cover" := [png "big.png" 5000];
                          "docs" := [png "a.png" 10] ]}))) =
    match head (all_violations Bytes.bytes [cover; docs; avatar]
                  {[ "cover" := [png "big.png" 5000];
                     "docs" := [png "a.png" 10] ]}) with
    | Some e => NextErr e
    | None => Next
    end
  /\ fst (UseMulter_callback Bytes.bytes [cover; docs; avatar] None None) = Next.
Proof.
  apply (validation_short_circuits Bytes.bytes [cover; docs; avatar]).
  apply (bool_decide_unpack _). vm_compute. exact I.
Defined.

(** ** One field *)

Lemma check_files_file_error (bytes : string -> option Z) (o : FileFieldOptions)
    (fs : list File) (e : Error) :
  check_files bytes o fs = Some e -> file_error e.
Proof.
  induction fs as [|f rest IH]; simpl; [discriminate|].
  unfold check_file.
  destruct (too_small bytes o f); [intros [= <-]; exact I|].
  destruct (too_large bytes o f); [intros [= <-]; exact I|].
  destruct (bad_type o f); [intros [= <-]; exact I|].
  exact IH.
Qed.

Lemma below_minFiles_spec (o : FileFieldOptions) (fs : list File) :
  below_minFiles o (Some (FileArray fs)) = true <->
  exists m, minFiles o = Some m /\ m <> 0 /\ Z.of_nat (length fs) < m.
Proof.
  unfold below_minFiles. simpl. destruct (minFiles o) as [m|]; simpl.
  - rewrite andb_true_iff, negb_true_iff, Z.eqb_neq, Z.ltb_lt. split.
    + intros [? ?]. eauto.
    + intros (m' & [= <-] & ? & ?). done.
  - split; [discriminate | intros (m' & ? & _); discriminate].
Qed.

Lemma above_maxFiles_spec (o : FileFieldOptions) (fs : list File) :
  above_maxFiles o (Some (FileArray fs)) = true <->
  exists x, maxFiles o = Some x /\ x <> 0 /\ x < Z.of_nat (length fs).
Proof.
  unfold above_maxFiles, js_gt. simpl. destruct (maxFiles o) as [x|]; simpl.
  - rewrite andb_true_iff, negb_true_iff, Z.eqb_neq, Z.ltb_lt. split.
    + intros [? ?]. eauto.
    + intros (x' & [= <-] & ? & ?). done.
  - split; [discriminate | intros (x' & ? & _); discriminate].
Qed.

(** An array field with files: what one pass of the loop body does. *)
Lemma process_field_array (bytes : string -> option Z) (meta : FileFieldMetadata)
    (st : gmap string FilesEntry) (fs : list File) :
  isArray meta = true -> fs <> [] ->
  st !! field_name meta = Some (FileArray fs) ->
  process_field bytes meta st =
    if below_minFiles (options meta) (Some (FileArray fs)) then
      Return (NextErr (TooFewFiles (field_name meta) (default 0 (minFiles (options meta))))) st
    else if above_maxFiles (options meta) (Some (FileArray fs)) then
      Return (NextErr (TooManyFiles (field_name meta) (default 0 (maxFiles (options meta))))) st
    else step_of (check_files bytes (options meta) fs) st.
Proof.
  intros Harr Hne Hst.
  rewrite (process_field_untouched bytes meta st fs) by (by left).
  unfold field_violation, rule_missing, rule_cardinality, rule_files, written.
  destruct fs as [|f rest]; [done|]. rewrite Harr.
  destruct (below_minFiles _ _); [reflexivity|].
  destruct (above_maxFiles _ _); reflexivity.
Qed.

(** The bounds [minFiles = 2], [maxFiles = 5] on 1, 2, 5 and 6 files, for
    the callback alone. *)
Lemma docs_two_to_five :
  let upload n := {[ "docs" := replicate n (png "a.png" 10) ]} in
  fst (UseMulter_callback Bytes.bytes [docs] None (Some (parsed (upload 1%nat))))
    = NextErr (TooFewFiles "docs" 2)
  /\ fst (UseMulter_callback Bytes.bytes [docs] None (Some (parsed (upload 2%nat)))) = Next
  /\ fst (UseMulter_callback Bytes.bytes [docs] None (Some (parsed (upload 5%nat)))) = Next
  /\ fst (UseMulter_callback Bytes.bytes [docs] None (Some (parsed (upload 6%nat))))
     = NextErr (TooManyFiles "docs" 5).
Proof. repeat split; vm_compute; reflexivity. Qed.

(** C7.  [parseFileSize] returns a number unchanged and parses "1KB" to
    1024; the minimum check rejects only a size strictly below the bound
    and the maximum check only a size strictly above it, so a file of
    exactly 1024 bytes passes both checks against "1KB". *)
Theorem size_bounds_inclusive :
  (forall bytes n, parseFileSize bytes (SizeNumber n) = n)
  /\ parseFileSize Bytes.bytes (SizeString "1KB") = Num 1024
  /\ (forall bytes o file s bound,
        minSize o = Some s -> parseFileSize bytes (SizeString s) = Num bound ->
        (too_small bytes o file = true <-> s <> "" /\ size file < bound))
  /\ (forall bytes o file s bound,
        maxSize o = Some s -> parseFileSize bytes (SizeString s) = Num bound ->
        (too_large bytes o file = true <-> s <> "" /\ bound < size file))
  /\ (forall o file,
        minSize o = Some "1KB" -> maxSize o = Some "1KB" -> size file = 1024 ->
        too_small Bytes.bytes o file = false /\ too_large Bytes.bytes o file = false).
Proof.
  split; [reflexivity|]. split; [vm_compute; reflexivity|].
  assert (Htruthy : forall s, truthy_string s = true <-> s <> "").
  { intros [|c s]; simpl; split; congruence. }
  split; [|split].
  - intros bytes o file s bound Hs Hb. unfold too_small. rewrite Hs, Hb. simpl.
    by rewrite andb_true_iff, Htruthy, Z.ltb_lt.
  - intros bytes o file s bound Hs Hb. unfold too_large, js_gt. rewrite Hs, Hb. simpl.
    by rewrite andb_true_iff, Htruthy, Z.ltb_lt.
  - intros o file Hmin Hmax Hsize. unfold too_small, too_large, js_gt.
    rewrite Hmin, Hmax, Hsize. vm_compute. done.
Qed.

(** C4, as the middleware has it.  A size string is parsed per file while a
    request is validated, and a string that [bytes] cannot parse is never
    reported as an error: [bytes] then yields [null], the bound is NaN, both
    comparisons are false and the size checks accept every file.  A string
    without a recognized unit falls back to [parseInt]: one that starts with
    digits, such as "5XB", is read as that many bytes and the bound applies
    to every request. *)
Theorem unparsable_size_never_an_error (bytes : string -> option Z)
    (o : FileFieldOptions) (file : File) :
  (forall s, minSize o = Some s -> bytes s = None) ->
  (forall s, maxSize o = Some s -> bytes s = None) ->
  too_small bytes o file = false /\ too_large bytes o file = false
  /\ check_file bytes o file =
       (if bad_type o file
        then Some (InvalidType (originalname file) (mimetype file) (default [] (mimeTypes o)))
        else None)
  /\ (forall s, Bytes.parseRegExp_exec s = None -> Bytes.bytes s = Bytes.parseInt10 s)
  /\ Bytes.bytes "5XB" = Some 5.
Proof.
  intros Hmin Hmax.
  assert (Hs : too_small bytes o file = false).
  { unfold too_small. destruct (minSize o) as [s|]; [|reflexivity].
    unfold parseFileSize. rewrite (Hmin s eq_refl). simpl. apply andb_false_r. }
  assert (Hl : too_large bytes o file = false).
  { unfold too_large, js_gt. destruct (maxSize o) as [s|]; [|reflexivity].
    unfold parseFileSize. rewrite (Hmax s eq_refl). simpl. apply andb_false_r. }
  repeat split; try done.
  - unfold check_file. by rewrite Hs, Hl.
  - intros s H. unfold Bytes.bytes, Bytes.parse. by rewrite H.
Qed.

Lemma unparsable_size_never_an_error_witness :
  too_small Bytes.bytes (options (sized "scan" (Some "huge") (Some "lots")))
    (png "a.png" 0) = false
  /\ too_large Bytes.bytes (options (sized "scan" (Some "huge") (Some "lots")))
       (png "a.png" 0) = false
  /\ check_file Bytes.bytes (options (sized "scan" (Some "huge") (Some "lots")))
       (png "a.png" 0) = None
  /\ (forall s, Bytes.parseRegExp_exec s = None -> Bytes.bytes s = Bytes.parseInt10 s)
  /\ Bytes.bytes "5XB" = Some 5.
Proof.
  apply (unparsable_size_never_an_error Bytes.bytes
           (options (sized "scan" (Some "huge") (Some "lots"))) (png "a.png" 0)).
  - intros s [= <-]. vm_compute. reflexivity.
  - intros s [= <-]. vm_compute. reflexivity.
Defined.

(** When the decorators run, the size strings are only copied into the
    schema description. *)
Lemma description_copies_size_strings :
  generateFileDescription (options (sized "thumb" (Some "huge") (Some "5XB"))) false
    = "Upload a file Minimum size: huge. Maximum size: 5XB."
  /\ generateFileDescription (options docs) true
    = "Upload multiple files Minimum number of files: 2. Maximum number of files: 5."
  /\ generateFileDescription (options avatar) false
    = "Upload a file under the key 'avatar'. Allowed MIME types: /^image\/png$/, /^image\/jpeg$/. Maximum size: 2MB.".
Proof. repeat split; vm_compute; reflexivity. Qed.

(** C4 fails as stated: "5XB" has no recognized unit, no error is raised
    for it, and it decides requests: a file of 6 bytes is rejected as too
    large and a file of 5 bytes is accepted; "huge" parses to nothing and a
    minimum of "huge" accepts an empty file. *)
Lemma unparsable_size_decides_requests :
  Bytes.parseRegExp_exec "5XB" = None
  /\ fst (UseMulter_callback Bytes.bytes [sized "thumb" None (Some "5XB")] None
            (Some (parsed {[ "thumb" := [png "a.png" 6] ]})))
     = NextErr (FileTooLarge "a.png" "5XB")
  /\ fst (UseMulter_callback Bytes.bytes [sized "thumb" None (Some "5XB")] None
            (Some (parsed {[ "thumb" := [png "a.png" 5] ]}))) = Next
  /\ Bytes.bytes "huge" = None
  /\ fst (UseMulter_callback Bytes.bytes [sized "thumb" (Some "huge") None] None
            (Some (parsed {[ "thumb" := [png "a.png" 0] ]}))) = Next.
Proof. repeat split; vm_compute; reflexivity. Qed.

(** ** String patterns of the compiled MIME test *)

#[local] Arguments String.append !s1 s2 : simpl nomatch.

Module PatternFacts.

Import Pattern.

Lemma compile_plain_char (c : ascii) (rest : string) :
  is_syntax_char c = false ->
  (forall q r, rest = String q r -> is_syntax_char q = false \/ q = "$"%char) ->
  compile (String c rest) = cons (Single (One c)) <$> compile rest.
Proof.
  intros Hc Hrest.
  assert (Hq : match rest with
               | String "*" after' => cons (Star (One c)) <$> compile after'
               | String "+" after' => cons (Plus (One c)) <$> compile after'
               | String "?" after' => cons (Opt (One c)) <$> compile after'
               | _ => cons (Single (One c)) <$> compile rest
               end = cons (Single (One c)) <$> compile rest).
  { destruct rest as [|d r]; [reflexivity|].
    destruct (Hrest d r eq_refl) as [Hd | ->]; [|reflexivity].
    destruct d as [[] [] [] [] [] [] [] []]; try reflexivity; discriminate Hd. }
  destruct c as [[] [] [] [] [] [] [] []]; try discriminate Hc; exact Hq.
Qed.

Lemma plain_not_star (s rest : string) :
  plain s = true ->
  (forall q r, rest = String q r -> is_syntax_char q = false \/ q = "$"%char) ->
  forall q r, s +:+ rest = String q r -> is_syntax_char q = false \/ q = "$"%char.
Proof.
  intros Hs Hrest q r. destruct s as [|c s]; simpl in *; [apply Hrest|].
  apply andb_true_iff in Hs as [Hc _]. intros [= -> _]. left. by apply negb_true_iff.
Qed.

Lemma compile_plain_app (s rest : string) :
  plain s = true ->
  (forall q r, rest = String q r -> is_syntax_char q = false \/ q = "$"%char) ->
  compile (s +:+ rest) = app (literal s) <$> compile rest.
Proof.
  intros Hs Hrest. induction s as [|c s IH].
  - simpl. by destruct (compile rest).
  - simpl in Hs. apply andb_true_iff in Hs as [Hc Hs].
    apply negb_true_iff in Hc.
    change (String c s +:+ rest) with (String c (s +:+ rest)).
    rewrite compile_plain_char by (done || by apply plain_not_star).
    rewrite IH by done. by destruct (compile rest).
Qed.

Lemma compile_plain (s : string) :
  plain s = true -> compile s = Some (literal s).
Proof.
  intros Hs. pose proof (compile_plain_app s "" Hs) as H.
  assert (Hnil : s +:+ "" = s).
  { clear. induction s as [|c s IH]; simpl; [reflexivity|]. by rewrite IH. }
  rewrite Hnil in H. rewrite H by done. simpl. by rewrite app_nil_r.
Qed.

Lemma match_here_literal (s text : string) (b : bool) :
  match_here (literal s) b text = true <-> exists post, text = s +:+ post.
Proof.
  revert text b. induction s as [|c s IH]; intros text b; simpl.
  - split; [eauto | done].
  - destruct text as [|d t].
    + split; [discriminate | intros (post & ?); discriminate].
    + rewrite andb_true_iff, IH. split.
      * intros [Hc (post & ->)]. apply Ascii.eqb_eq in Hc as ->. eauto.
      * intros (post & [= -> ->]). split; [apply Ascii.eqb_refl | eauto].
Qed.

Lemma search_literal (s text : string) (b : bool) :
  search (literal s) b text = true <-> occurs_in s text.
Proof.
  unfold occurs_in. revert b. induction text as [|c t IH]; intros b; simpl.
  - rewrite orb_false_r, match_here_literal. split.
    + intros (post & ->). by exists "", post.
    + intros (pre & post & H). destruct pre; [|discriminate]. eauto.
  - rewrite orb_true_iff, match_here_literal, IH. split.
    + intros [(post & ->) | (pre & post & ->)].
      * by exists "", post.
      * by exists (String c pre), post.
    + intros (pre & post & H). destruct pre as [|c' pre]; simpl in H.
      * left. eauto.
      * right. injection H as -> ->. eauto.
Qed.

Lemma match_here_anchored (s text : string) (b : bool) :
  match_here (literal s ++ [Eol]) b text = true <-> text = s.
Proof.
  revert text b. induction s as [|c s IH]; intros text b; simpl.
  - destruct text; split; congruence.
  - destruct text as [|d t]; [split; discriminate|].
    rewrite andb_true_iff, IH. split.
    + intros [Hc ->]. by apply Ascii.eqb_eq in Hc as ->.
    + intros [= -> ->]. split; [apply Ascii.eqb_refl | done].
Qed.

Lemma search_bol_inside (re : list Atom) (text : string) :
  search (Bol :: re) false text = false.
Proof. induction text as [|c t IH]; simpl; [reflexivity | exact IH]. Qed.

Lemma regex_test_anchored (s text : string) :
  regex_test (Bol :: literal s ++ [Eol]) text = true <-> text = s.
Proof.
  unfold regex_test.
  assert (H : search (Bol :: literal s ++ [Eol]) true text
              = match_here (literal s ++ [Eol]) true text).
  { destruct text as [|c t]; simpl; [apply orb_false_r|].
    pose proof (search_bol_inside (literal s ++ [Eol]) t) as Hb.
    simpl in Hb. rewrite Hb. apply orb_false_r. }
  rewrite H. apply match_here_anchored.
Qed.

End PatternFacts.

Section MimeFacts.

Variable RegExp_new : string -> option RegExp.

Lemma mime_matched_spec (items : list MimeItem) (mime : string) :
  (forall item, item ∈ items -> is_Some (item_test RegExp_new item mime)) ->
  is_Some (mime_matched RegExp_new items mime)
  /\ (mime_matched RegExp_new items mime = Some true <->
      exists item, item ∈ items /\ item_test RegExp_new item mime = Some true).
Proof.
  induction items as [|item rest IH]; intros Hall; simpl.
  - split; [by eexists|]. split; [discriminate|].
    intros (item & Hin & _). by apply elem_of_nil in Hin.
  - destruct (Hall item) as [b Hb]; [left|]. rewrite Hb.
    destruct IH as [Hsome Hiff]; [intros i Hi; apply Hall; by right|].
    destruct b.
    + split; [by eexists|]. split; [|done]. intros _. exists item. split; [left | done].
    + split; [exact Hsome|]. rewrite Hiff. split.
      * intros (i & Hi & Ht). exists i. split; [by right | done].
      * intros (i & Hi & Ht). apply elem_of_cons in Hi as [-> | Hi]; [congruence|eauto].
Qed.

(** [some] stops at the first item that matches: the file passes exactly
    when an item matches and every item before it was tested without
    matching. *)
Lemma mime_matched_first (items : list MimeItem) (mime : string) :
  mime_matched RegExp_new items mime = Some true <->
  exists pre item post,
    items = pre ++ item :: post
    /\ (forall i, i ∈ pre -> item_test RegExp_new i mime = Some false)
    /\ item_test RegExp_new item mime = Some true.
Proof.
  induction items as [|item rest IH]; simpl.
  - split; [discriminate|]. intros (pre & i & post & H & _). by destruct pre.
  - destruct (item_test RegExp_new item mime) as [[]|] eqn:Ht.
    + split; [|done]. intros _. exists [], item, rest.
      split; [reflexivity|]. split; [|done]. intros i Hi. by apply elem_of_nil in Hi.
    + rewrite IH. split.
      * intros (pre & i & post & -> & Hpre & Hi). exists (item :: pre), i, post.
        split; [reflexivity|]. split; [|done].
        intros k Hk. apply elem_of_cons in Hk as [-> | Hk]; [done | by apply Hpre].
      * intros (pre & i & post & Heq & Hpre & Hi). destruct pre as [|p pre].
        -- injection Heq as -> ->. congruence.
        -- injection Heq as -> ->. exists pre, i, post. split; [reflexivity|].
           split; [|done]. intros k Hk. apply Hpre. by right.
    + split; [discriminate|]. intros (pre & i & post & Heq & Hpre & Hi).
      destruct pre as [|p pre].
      * injection Heq as -> ->. congruence.
      * injection Heq as -> ->. specialize (Hpre p). rewrite Ht in Hpre.
        discriminate Hpre. left.
Qed.

End MimeFacts.

(** C3, as the compiled middleware has it.  A string pattern goes through
    [new RegExp(item)] as it is, without anchors and with its characters
    read as regular-expression syntax.  Whatever the constructor makes of
    the strings, a retained file passes the check if and only if at least
    one item's expression matches its MIME type, the items being tried in
    order up to the first match.  In the syntax modelled, a pattern free of
    syntax characters matches every MIME type in which it occurs, and it
    matches the literal value alone only when the caller writes the
    anchors, as in "^image/png$".  So "image/.*" lets every image type
    pass, while the literal "image/svg+xml" does not match the MIME type
    image/svg+xml. *)
Theorem string_pattern_is_unanchored (RegExp_new : string -> option RegExp)
    (items : list MimeItem) (mime : string) :
  (mime_matched RegExp_new items mime = Some true <->
     exists pre item post,
       items = pre ++ item :: post
       /\ (forall i, i ∈ pre -> item_test RegExp_new i mime = Some false)
       /\ item_test RegExp_new item mime = Some true)
  /\ ((forall s, ItemString s ∈ items -> is_Some (RegExp_new s)) ->
      (mime_matched RegExp_new items mime = Some true
       \/ mime_matched RegExp_new items mime = Some false)
      /\ (mime_matched RegExp_new items mime = Some true <->
          exists item, item ∈ items /\
            match item with
            | ItemRegExp r => test r mime = true
            | ItemString s => exists regex, RegExp_new s = Some regex /\ test regex mime = true
            end))
  /\ (forall s, Pattern.plain s = true ->
        (item_test Pattern.new (ItemString s) mime = Some true <-> Pattern.occurs_in s mime)
        /\ (item_test Pattern.new (ItemString ("^" +:+ s +:+ "$")) mime = Some true
            <-> mime = s))
  /\ item_test Pattern.new (ItemString "image/.*") "image/gif" = Some true
  /\ item_test Pattern.new (ItemString "^image/png$") "ximage/pngy" = Some false
  /\ item_test Pattern.new (ItemString "image/svg+xml") "image/svg+xml" = Some false
  /\ item_test Pattern.new (ItemString "image/svg+xml") "image/svggxml" = Some true.
Proof.
  split; [apply mime_matched_first|]. split; [|split].
  - intros Hall.
    assert (Hitem : forall item, item ∈ items ->
              is_Some (item_test RegExp_new item mime)
              /\ (item_test RegExp_new item mime = Some true <->
                  match item with
                  | ItemRegExp r => test r mime = true
                  | ItemString s =>
                      exists regex, RegExp_new s = Some regex /\ test regex mime = true
                  end)).
    { intros [r|s] Hin; simpl.
      - split; [by eexists|]. split; congruence.
      - destruct (Hall s Hin) as [regex ->]. simpl. split; [by eexists|]. split.
        + intros [= H]. eauto.
        + intros (regex' & [= <-] & H). by rewrite H. }
    destruct (mime_matched_spec RegExp_new items mime) as [[b Hb] Hiff];
      [intros i Hi; by apply Hitem|].
    split; [destruct b; auto|].
    rewrite Hiff. split; intros (i & Hi & Ht); exists i; (split; [done|]);
      by apply (Hitem i Hi).
  - intros s Hs. split.
    + simpl. unfold Pattern.new. rewrite PatternFacts.compile_plain by done. simpl.
      unfold Pattern.regex_test.
      rewrite <- (PatternFacts.search_literal s mime true). split; congruence.
    + unfold item_test, Pattern.new. simpl.
      pose proof (PatternFacts.compile_plain_app s "$" Hs) as Hc.
      rewrite Hc by (intros q r [= <- _]; by right). simpl.
      rewrite <- (PatternFacts.regex_test_anchored s mime). split; congruence.
  - repeat split; vm_compute; reflexivity.
Qed.

(** C3 fails as stated: the literal pattern "image/png" lets the MIME type
    "ximage/pngy" pass, which only contains it. *)
Lemma literal_pattern_matches_inside :
  "ximage/pngy" <> "image/png"
  /\ mime_matched Pattern.new [ItemString "image/png"] "ximage/pngy" = Some true.
Proof. split; [discriminate | vm_compute; reflexivity]. Qed.

(** ** The resolver *)

Module AsyncResolverFacts.

Import AsyncResolver.

Section Facts.

Context {Class Reason : Type}.
Variable class_name : Class -> string.
Variable throws : MetaWrite Class Reason -> option Reason.

(** One [@IsEntity] adds at most one task, never a rejected one. *)
Lemma IsEntity_tasks (ref : Reference Class Reason) (each : option bool)
    (target key : string) (w : World Class Reason) :
  exists extra : list (Promise Reason unit),
    tasks (fst (IsEntity class_name throws ref each target key w)) = tasks w ++ extra
    /\ Forall (fun t => t = Fulfilled tt \/ t = Pending) extra
    /\ (ref <> Deferred Pending -> Forall (fun t => t = Fulfilled tt) extra).
Proof.
  unfold IsEntity, bind, decorate, ApplyJsonSchemaType, FixArrayJsonSchemaReference,
    FixItemJsonSchemaReference, then_, catch_, console_error, addTask, ret, bind, decorate.
  destruct ref as [type | [type | e | ]]; simpl;
    repeat (case_match; simplify_eq; simpl).
  all: try (exists []; rewrite app_nil_r; repeat split; auto; fail).
  all: try (eexists [_]; repeat split;
            [repeat constructor; auto | intros; repeat constructor; auto]; fail).
  all: try (eexists [_]; repeat split;
            [repeat constructor; auto | intros; repeat constructor; auto; congruence]; fail).
Qed.

Lemma settled_not_pending (d : Decoration Class Reason) :
  settled d = true -> dec_reference d <> Deferred Pending.
Proof. unfold settled. intros H Heq. rewrite Heq in H. discriminate. Qed.

Lemma decorate_all_tasks (ds : list (Decoration Class Reason)) :
  forall w,
  exists extra : list (Promise Reason unit),
    tasks (fst (decorate_all class_name throws ds w)) = tasks w ++ extra
    /\ Forall (fun t => t = Fulfilled tt \/ t = Pending) extra
    /\ (forallb settled ds = true -> Forall (fun t => t = Fulfilled tt) extra).
Proof.
  induction ds as [|d rest IH]; intros w; simpl.
  - exists []. rewrite app_nil_r. repeat split; constructor.
  - unfold bind.
    destruct (IsEntity_tasks (dec_reference d) (dec_each d) (dec_target d) (dec_key d) w)
      as (ex1 & Ht1 & Hok1 & Hful1).
    destruct (IsEntity class_name throws (dec_reference d) (dec_each d)
                (dec_target d) (dec_key d) w) as [w1 [[]|e]]; simpl in *.
    + destruct (IH w1) as (ex2 & Ht2 & Hok2 & Hful2).
      exists (ex1 ++ ex2). rewrite Ht2, Ht1, app_assoc. split; [done|]. split.
      * by apply Forall_app.
      * intros Hs. apply andb_true_iff in Hs as [Hd Hs].
        apply Forall_app. split; [by apply Hful1, settled_not_pending | by apply Hful2].
    + exists ex1. split; [done|]. split; [done|].
      intros Hs. apply andb_true_iff in Hs as [Hd _].
      by apply Hful1, settled_not_pending.
Qed.

Lemma Promise_all_not_rejected (ts : list (Promise Reason unit)) :
  Forall (fun t => t = Fulfilled tt \/ t = Pending) ts ->
  forall e, Promise_all ts <> Rejected e.
Proof.
  induction 1 as [|t ts [-> | ->] _ IH]; intros e; simpl; [done| |].
  - specialize (IH e). by destruct (Promise_all ts).
  - specialize (IH e). by destruct (Promise_all ts).
Qed.

Lemma Promise_all_fulfilled (ts : list (Promise Reason unit)) :
  Forall (fun t => t = Fulfilled tt) ts ->
  exists l, Promise_all ts = Fulfilled l.
Proof.
  induction 1 as [|t ts -> _ [l IH]]; simpl; [by eexists|].
  rewrite IH. by eexists.
Qed.

End Facts.

End AsyncResolverFacts.

(** C8.  Every task [IsEntity] queues is built as
    [referenceType.then(...).catch(...)]: whether the type promise fulfils,
    rejects, or the callback chained on it throws, the task fulfils (with
    the error logged), and it stays pending only while the type promise
    never settles.  So [resolveAll] never rejects, and once every type
    promise has settled it fulfils with the same result whether the tasks
    succeeded or failed internally. *)
Theorem resolveAll_never_rejects {Class Reason : Type}
    (class_name : Class -> string)
    (throws : AsyncResolver.MetaWrite Class Reason -> option Reason)
    (ds : list (AsyncResolver.Decoration Class Reason)) :
  let w := fst (AsyncResolver.decorate_all class_name throws ds AsyncResolver.initial) in
  Forall (fun t => t = AsyncResolver.Fulfilled tt \/ t = AsyncResolver.Pending) (AsyncResolver.tasks w)
  /\ (forall e, AsyncResolver.resolveAll w <> AsyncResolver.Rejected e)
  /\ (forallb AsyncResolver.settled ds = true ->
      Forall (fun t => t = AsyncResolver.Fulfilled tt) (AsyncResolver.tasks w)
      /\ AsyncResolver.resolveAll w = AsyncResolver.Fulfilled tt)
  /\ (forall (w0 : AsyncResolver.World Class Reason) e each target key,
        throws (AsyncResolver.ValidateNested target key (default false each)) = None ->
        throws (AsyncResolver.DesignItemType target key
                  (AsyncResolver.Deferred (AsyncResolver.Rejected e))) = None ->
        AsyncResolver.IsEntity class_name throws (AsyncResolver.Deferred (AsyncResolver.Rejected e))
          each target key w0
        = ({| AsyncResolver.tasks := AsyncResolver.tasks w0 ++ [AsyncResolver.Fulfilled tt];
              AsyncResolver.metadata :=
                AsyncResolver.metadata w0
                ++ [AsyncResolver.ValidateNested target key (default false each)]
                ++ [AsyncResolver.DesignItemType target key
                      (AsyncResolver.Deferred (AsyncResolver.Rejected e))];
              AsyncResolver.console :=
                AsyncResolver.console w0
                ++ ["Error resolving type for property :" +:+ key] |},
           inl tt)).
Proof.
  intros w.
  destruct (AsyncResolverFacts.decorate_all_tasks class_name throws ds AsyncResolver.initial)
    as (extra & Ht & Hok & Hful).
  fold w in Ht. simpl in Ht. subst extra.
  split; [exact Hok|]. split; [|split].
  - intros e. unfold AsyncResolver.resolveAll. case_match; [|done].
    pose proof (AsyncResolverFacts.Promise_all_not_rejected _ Hok) as Hnr.
    destruct (AsyncResolver.Promise_all (AsyncResolver.tasks w)) eqn:Hall; try done.
    intros [= <-]. by apply (Hnr reason).
  - intros Hs. specialize (Hful Hs). split; [exact Hful|].
    unfold AsyncResolver.resolveAll. case_match; [|done].
    destruct (AsyncResolverFacts.Promise_all_fulfilled _ Hful) as [l ->]. done.
  - intros w0 e each target key H1 H2.
    unfold AsyncResolver.IsEntity, AsyncResolver.bind, AsyncResolver.decorate. simpl.
    rewrite H1. simpl. rewrite H2. simpl.
    unfold AsyncResolver.addTask. simpl. by rewrite <- app_assoc.
Qed.

(** ** [toSlug] *)

Module UtilsFacts.

Import Utils.

Local Open Scope N_scope.

(** Decide the comparisons of the goal from the bounds at hand. *)
Ltac decide_bounds :=
  repeat match goal with
    | |- context [?a <=? ?b] =>
        first [ rewrite (proj2 (N.leb_le a b)) by lia
              | rewrite (proj2 (N.leb_gt a b)) by lia ]
    | |- context [?a =? ?b] =>
        first [ rewrite (proj2 (N.eqb_eq a b)) by lia
              | rewrite (proj2 (N.eqb_neq a b)) by lia ]
    end.

Lemma in_upper_class_cases (c : N) :
  in_upper_class c = true ->
  (65 <= c <= 90) \/ (48 <= c <= 57) \/ c = 95 \/ c = 46.
Proof.
  unfold in_upper_class, is_upper, is_digit.
  rewrite !orb_true_iff, !andb_true_iff, !N.leb_le, !N.eqb_eq. tauto.
Qed.

Lemma in_class_cases (c : N) :
  in_class c = true ->
  (97 <= c <= 122) \/ (65 <= c <= 90) \/ (48 <= c <= 57) \/ c = 95 \/ c = 46.
Proof.
  unfold in_class, is_lower, is_upper, is_digit.
  rewrite !orb_true_iff, !andb_true_iff, !N.leb_le, !N.eqb_eq. tauto.
Qed.

Lemma upper_not_white (c : N) : in_upper_class c = true -> is_white_space c = false.
Proof.
  intros H. apply in_upper_class_cases in H. unfold is_white_space.
  destruct H as [H | [H | [-> | ->]]]; [decide_bounds; reflexivity.. | reflexivity | reflexivity].
Qed.

Lemma upper_not_lower (c : N) : in_upper_class c = true -> is_lower c = false.
Proof.
  intros H. apply in_upper_class_cases in H. unfold is_lower.
  destruct H as [H | [H | [-> | ->]]]; [decide_bounds; reflexivity.. | reflexivity | reflexivity].
Qed.

Lemma upper_in_class (c : N) : in_upper_class c = true -> in_class c = true.
Proof.
  unfold in_upper_class, in_class. rewrite !orb_true_iff. tauto.
Qed.

Lemma toUpperCase_char_upper (c : N) :
  in_class c = true -> in_upper_class (if is_lower c then c - 32 else c) = true.
Proof.
  intros H. apply in_class_cases in H. unfold is_lower, in_upper_class, is_upper, is_digit.
  destruct H as [H | [H | [H | [-> | ->]]]]; [decide_bounds; simpl; decide_bounds; reflexivity.. | reflexivity | reflexivity].
Qed.

Lemma replace_other_in_class (s : list N) :
  forall in_run, Forall (fun c => in_class c = true) (replace_other in_run s).
Proof.
  induction s as [|c t IH]; intros in_run; simpl; [constructor|].
  destruct (in_class c) eqn:Hc; [by constructor|].
  destruct in_run; [apply IH|]. by constructor.
Qed.

Lemma toUpperCase_in_upper_class (s : list N) :
  Forall (fun c => in_class c = true) s ->
  Forall (fun c => in_upper_class c = true) (toUpperCase s).
Proof.
  induction 1 as [|c t Hc _ IH]; simpl; constructor; [|exact IH].
  by apply toUpperCase_char_upper.
Qed.

(** The result of [toSlug] has only uppercase letters, digits, underscores
    and dots. *)
Lemma toSlug_in_upper_class (str : list N) :
  Forall (fun c => in_upper_class c = true) (toSlug str).
Proof. apply toUpperCase_in_upper_class, replace_other_in_class. Qed.

Lemma trimStart_upper (s : list N) :
  Forall (fun c => in_upper_class c = true) s -> trimStart s = s.
Proof.
  destruct 1 as [|c t Hc _]; simpl; [reflexivity|]. by rewrite upper_not_white.
Qed.

Lemma trim_upper (s : list N) :
  Forall (fun c => in_upper_class c = true) s -> trim s = s.
Proof.
  intros H. unfold trim, trimEnd. rewrite (trimStart_upper s H).
  rewrite trimStart_upper; [apply rev_involutive|].
  apply Forall_forall. intros c Hc. rewrite Forall_forall in H. apply H.
  apply list_elem_of_In. apply list_elem_of_In in Hc. by apply in_rev.
Qed.

Lemma replace_camel_upper (s : list N) :
  Forall (fun c => in_upper_class c = true) s -> replace_camel s = s.
Proof.
  induction 1 as [|a rest Ha Hrest IH]; [reflexivity|].
  destruct rest as [|b t]; [reflexivity|].
  change (replace_camel (a :: b :: t))
    with (if is_lower a && is_upper b then a :: 95 :: b :: replace_camel t
          else a :: replace_camel (b :: t)).
  by rewrite upper_not_lower, IH.
Qed.

Lemma replace_other_upper (s : list N) :
  Forall (fun c => in_upper_class c = true) s ->
  forall in_run, replace_other in_run s = s.
Proof.
  induction 1 as [|c t Hc _ IH]; intros in_run; simpl; [reflexivity|].
  by rewrite upper_in_class, IH.
Qed.

Lemma toUpperCase_upper (s : list N) :
  Forall (fun c => in_upper_class c = true) s -> toUpperCase s = s.
Proof.
  induction 1 as [|c t Hc _ IH]; [reflexivity|].
  unfold toUpperCase in *. simpl. rewrite upper_not_lower by done.
  f_equal. exact IH.
Qed.

End UtilsFacts.

(** C10.  [toSlug] is idempotent: its result holds only uppercase letters,
    digits, underscores and dots, which a second application leaves as they
    are. *)
Theorem toSlug_idempotent (str : list N) :
  Utils.toSlug (Utils.toSlug str) = Utils.toSlug str
  /\ Forall (fun c => Utils.in_upper_class c = true) (Utils.toSlug str).
Proof.
  pose proof (UtilsFacts.toSlug_in_upper_class str) as H.
  split; [|exact H].
  generalize dependent (Utils.toSlug str). intros s H. unfold Utils.toSlug.
  rewrite (UtilsFacts.trim_upper s H).
  rewrite !(UtilsFacts.replace_camel_upper s H).
  rewrite (UtilsFacts.replace_other_upper s H).
  apply (UtilsFacts.toUpperCase_upper s H).
Qed.

(** [toSlug] on a camel-case name with blanks and punctuation. *)
Lemma toSlug_examples :
  Utils.toSlug (Utils.of_string "  helloWorld  fooBar-baz.v2 ")
    = Utils.of_string "HELLO_WORLD_FOO_BAR_BAZ.V2"
  /\ Utils.toSlug (Utils.of_string "aBcD") = Utils.of_string "A_BC_D"
  /\ Utils.toSlug [104; 233; 8232; 108; 12288]%N = Utils.of_string "H_L".
Proof. repeat split; vm_compute; reflexivity. Qed.

(** Three deferred types: one resolves, one rejects, one resolves to a
    class on which the transformer decorator throws.  All three tasks
    fulfil, two errors are logged and the batch fulfils. *)
Lemma resolveAll_example :
  let throws (m : AsyncResolver.MetaWrite string string) : option string :=
    match m with
    | AsyncResolver.TransformType _ _ (Some "Broken") => Some "cannot decorate"
    | _ => None
    end in
  let ds :=
    [ AsyncResolver.Build_Decoration (AsyncResolver.Deferred (AsyncResolver.Fulfilled (Some "User")))
        None "Post" "author";
      AsyncResolver.Build_Decoration (AsyncResolver.Deferred (AsyncResolver.Rejected "import failed"))
        (Some true) "Post" "tags";
      AsyncResolver.Build_Decoration (AsyncResolver.Deferred (AsyncResolver.Fulfilled (Some "Broken")))
        None "Post" "cover" ] in
  let w := fst (AsyncResolver.decorate_all (fun c => c) throws ds AsyncResolver.initial) in
  AsyncResolver.tasks w = [AsyncResolver.Fulfilled tt; AsyncResolver.Fulfilled tt; AsyncResolver.Fulfilled tt]
  /\ AsyncResolver.console w = ["Error resolving type for property :tags";
                           "Error resolving type for property :cover"]
  /\ AsyncResolver.resolveAll w = AsyncResolver.Fulfilled tt.
Proof. repeat split; vm_compute; reflexivity. Qed.

(** The end-to-end cases of the design document: one PNG of 500000 bytes
    under [avatar] is accepted and written back as a single file; without a
    file under [avatar] the request is rejected. *)
Lemma avatar_end_to_end :
  UseMulter_callback Bytes.bytes [avatar] None
    (Some (parsed {[ "avatar" := [png "me.png" 500000] ]}))
    = (Next, Some {[ "avatar" := OneFile (png "me.png" 500000) ]})
  /\ fst (UseMulter_callback Bytes.bytes [avatar] None (Some (parsed ∅)))
     = NextErr (NoFilesUploaded "avatar")
  /\ fst (UseMulter_callback Bytes.bytes [avatar] None
            (Some (parsed {[ "avatar" :=
               [{| originalname := "me.gif"; mimetype := "image/gif"; size := 10 |}] ]})))
     = NextErr (InvalidType "me.gif" "image/gif" (default [] (mimeTypes (options avatar))))
  /\ multerFields [avatar; docs; attachments] = [("avatar", 1); ("docs", 5); ("attachments", 0)].
Proof. repeat split; vm_compute; reflexivity. Qed.

(** ** Behind the parser *)

Lemma process_field_store (bytes : string -> option Z) (m : FileFieldMetadata)
    (st : gmap string FilesEntry) :
  step_files (process_field bytes m st) = st
  \/ exists v, step_files (process_field bytes m st) = <[field_name m := v]> st.
Proof.
  unfold process_field, file_loop.
  repeat (case_match; simpl); eauto.
Qed.

Module MulterFacts.

Lemma filesLeft_other (l : list (string * Z)) (n : string) :
  forall acc : gmap string Z,
    n ∉ l.*1 ->
    foldl (fun remaining field => <[fst field := snd field]> remaining) acc l !! n = acc !! n.
Proof.
  induction l as [|p l IH]; intros acc Hn; [reflexivity|].
  rewrite fmap_cons in Hn. apply not_elem_of_cons in Hn as [Hne Hn].
  simpl. rewrite IH by done. by rewrite lookup_insert_ne.
Qed.

Lemma filesLeft_same (l : list (string * Z)) (n : string) (v : Z) :
  forall acc : gmap string Z,
    (forall p, p ∈ l -> fst p = n -> snd p = v) ->
    acc !! n = Some v \/ n ∈ l.*1 ->
    foldl (fun remaining field => <[fst field := snd field]> remaining) acc l !! n = Some v.
Proof.
  induction l as [|p l IH]; intros acc Hall Hin; simpl.
  - destruct Hin as [H | H]; [done | by apply elem_of_nil in H].
  - apply IH; [intros q Hq; apply Hall; by right|].
    destruct (decide (fst p = n)) as [Heq | Hne].
    + left. rewrite Heq, lookup_insert_eq. f_equal. apply Hall; [left | done].
    + rewrite lookup_insert_ne by done. destruct Hin as [H | H]; [by left|].
      rewrite fmap_cons in H. apply elem_of_cons in H as [H | H]; [congruence | by right].
Qed.

(** A name that only scalar fields declare may take one file. *)
Lemma filesLeft_scalar (fileFields : list FileFieldMetadata) (meta : FileFieldMetadata) :
  meta ∈ fileFields ->
  (forall m, m ∈ fileFields -> field_name m = field_name meta -> isArray m = false) ->
  Multer.filesLeft (multerFields fileFields) !! field_name meta = Some 1.
Proof.
  intros Hin Hscalar. unfold Multer.filesLeft. apply filesLeft_same.
  - intros p Hp Hn. unfold multerFields in Hp.
    apply list_elem_of_In, in_map_iff in Hp as (m & <- & Hm). simpl in *.
    by rewrite (Hscalar m) by (by apply list_elem_of_In || done).
  - right. apply list_elem_of_fmap. exists (field_name meta, 1). split; [reflexivity|].
    unfold multerFields. apply list_elem_of_In, in_map_iff. exists meta.
    split; [|by apply list_elem_of_In].
    by rewrite (Hscalar meta Hin eq_refl).
Qed.

(** With pairwise distinct names each field's own [maxCount] is in force. *)
Lemma filesLeft_distinct (fileFields : list FileFieldMetadata) (meta : FileFieldMetadata) :
  NoDup (field_name <$> fileFields) ->
  meta ∈ fileFields ->
  Multer.filesLeft (multerFields fileFields) !! field_name meta
    = Some (if isArray meta then default 99 (maxFiles (options meta)) else 1).
Proof.
  intros Hnd Hin. unfold Multer.filesLeft. apply filesLeft_same.
  - intros p Hp Hn. unfold multerFields in Hp.
    apply list_elem_of_In, in_map_iff in Hp as (m & <- & Hm). simpl in *.
    apply list_elem_of_In in Hm.
    assert (m = meta) as ->; [|done].
    clear -Hnd Hin Hm Hn. induction fileFields as [|a l IH]; [by apply elem_of_nil in Hin|].
    rewrite fmap_cons in Hnd. apply NoDup_cons in Hnd as [Hfresh Hnd].
    apply elem_of_cons in Hin as [-> | Hin], Hm as [-> | Hm]; try done.
    + destruct Hfresh. rewrite <- Hn. apply list_elem_of_fmap. eauto.
    + destruct Hfresh. rewrite Hn. apply list_elem_of_fmap. eauto.
    + by apply IH.
  - right. apply list_elem_of_fmap.
    exists (field_name meta, if isArray meta then default 99 (maxFiles (options meta)) else 1).
    split; [reflexivity|].
    unfold multerFields. apply list_elem_of_In, in_map_iff. exists meta.
    split; [reflexivity | by apply list_elem_of_In].
Qed.

(** The parser knows one error. *)
Lemma accept_error (parts : list (string * File)) :
  forall quota files,
    fst (Multer.accept quota parts files) = None
    \/ fst (Multer.accept quota parts files) = Some Multer.unexpected_file.
Proof.
  induction parts as [|[n f] rest IH]; intros quota files; simpl; [by left|].
  destruct (default 0 (quota !! n) <=? 0); [by right | apply IH].
Qed.

Lemma sent_cons_same (n : string) (f : File) (rest : list (string * File)) :
  sent ((n, f) :: rest) n = f :: sent rest n.
Proof. unfold sent. rewrite filter_cons_True by done. reflexivity. Qed.

Lemma sent_cons_other (n n' : string) (f : File) (rest : list (string * File)) :
  n' <> n -> sent ((n', f) :: rest) n = sent rest n.
Proof. intros Hne. unfold sent. by rewrite filter_cons_False. Qed.

(** What the parser lets through: under each name the files sent under
    it, in order, no more of them than the name could take. *)
Lemma accept_counts (parts : list (string * File)) :
  forall quota files raw,
    Multer.accept quota parts files = (None, raw) ->
    forall n,
      received raw n = received files n ++ sent parts n
      /\ Z.of_nat (length (sent parts n)) <= Z.max 0 (default 0 (quota !! n)).
Proof.
  induction parts as [|[n0 f] rest IH]; intros quota files raw Hacc n; simpl in Hacc.
  - injection Hacc as <-. unfold sent. simpl. rewrite app_nil_r. split; [done | lia].
  - destruct (default 0 (quota !! n0) <=? 0) eqn:Hle; [discriminate|].
    apply Z.leb_gt in Hle.
    destruct (IH _ _ _ Hacc n) as [Hrec Hcount].
    destruct (decide (n0 = n)) as [-> | Hne].
    + rewrite sent_cons_same. rewrite lookup_insert_eq in Hcount. simpl in Hcount.
      split.
      * rewrite Hrec. unfold received, Multer.append_file. rewrite lookup_insert_eq. simpl.
        by rewrite <- app_assoc.
      * simpl length. lia.
    + rewrite sent_cons_other by done. rewrite lookup_insert_ne in Hcount by done.
      split; [|done].
      rewrite Hrec. unfold received, Multer.append_file. by rewrite lookup_insert_ne.
Qed.

(** The callback behind the parser: the parser's error, or the callback
    on the files sent. *)
Lemma middleware_cases (bytes : string -> option Z)
    (fileFields : list FileFieldMetadata) (parts : list (string * File)) :
  fst (UseMulter_middleware bytes fileFields (Some parts)) = NextErr Multer.unexpected_file
  \/ exists raw,
       Multer.accept (Multer.filesLeft (multerFields fileFields)) parts ∅ = (None, raw)
       /\ (forall n, received raw n = sent parts n)
       /\ UseMulter_middleware bytes fileFields (Some parts)
          = UseMulter_callback bytes fileFields None (Some (parsed raw)).
Proof.
  unfold UseMulter_middleware, Multer.fields.
  pose proof (accept_error parts (Multer.filesLeft (multerFields fileFields)) ∅) as Herr.
  pose proof (accept_counts parts (Multer.filesLeft (multerFields fileFields)) ∅) as Hcount.
  destruct (Multer.accept (Multer.filesLeft (multerFields fileFields)) parts ∅)
    as [[e|] raw]; simpl in *.
  - destruct Herr as [? | [= ->]]; [done | by left].
  - right. exists raw. split; [done|]. split; [|done].
    intros n. destruct (Hcount raw eq_refl n) as [-> _]. unfold received.
    by rewrite lookup_empty.
Qed.

End MulterFacts.

(** ** Declarations that share a name *)

Section SharedNames.

Variable bytes : string -> option Z.
Variable raw : gmap string (list File).

Lemma read_as_parsed (name : string) : read_as (parsed raw) name (received raw name).
Proof. left. apply untouched_parsed. Qed.

Lemma normalized_read_as (m : FileFieldMetadata) (st : gmap string FilesEntry)
    (name : string) (fs : list File) :
  st !! name = Some (normalized m fs) -> read_as st name fs.
Proof.
  unfold normalized, read_as, untouched. intros H.
  destruct (isArray m); [by left; left|].
  destruct fs as [|f rest]; [right; left | right; right]; eauto.
Qed.

(** A field that lets the loop go on has read its entry as the files
    received and leaves its normalized shape; nothing else changes. *)
Lemma process_field_read_as (m : FileFieldMetadata) (st st' : gmap string FilesEntry) :
  read_as st (field_name m) (received raw (field_name m)) ->
  process_field bytes m st = Continue st' ->
  st' !! field_name m = Some (normalized m (received raw (field_name m)))
  /\ forall name, name <> field_name m -> st' !! name = st !! name.
Proof.
  intros [Hu | [[Hst Hfs] | (first & rest & Hst & Hfs)]] Hstep.
  - rewrite (process_field_untouched bytes m st _ Hu) in Hstep.
    destruct (field_violation bytes m (received raw (field_name m))) eqn:Hv;
      [discriminate|].
    injection Hstep as <-. split.
    + by apply (written_passed bytes raw).
    + intros name Hne. by apply written_other.
  - rewrite Hfs. unfold process_field in Hstep. rewrite Hst in Hstep. simpl in Hstep.
    unfold normalized.
    destruct (required (options m)); [discriminate|].
    destruct (isArray m); injection Hstep as <-;
      (split; [apply lookup_insert_eq | intros name Hne; by rewrite lookup_insert_ne]).
  - exfalso. unfold process_field, file_loop, below_minFiles, above_maxFiles in Hstep.
    rewrite Hst in Hstep. simpl in Hstep.
    destruct (required (options m)), (isArray m),
      (minFiles (options m)) as [[]|], (maxFiles (options m)) as [[]|];
      simpl in Hstep; discriminate.
Qed.

(** While the loop goes on, the entry under every declared name holds the
    normalized shape of the last declaration of that name. *)
Lemma validate_fields_read_as (fileFields : list FileFieldMetadata) :
  forall st st',
    (forall name, read_as st name (received raw name)) ->
    validate_fields bytes fileFields st = Continue st' ->
    (forall name, read_as st' name (received raw name))
    /\ (forall name, name ∉ (field_name <$> fileFields) -> st' !! name = st !! name)
    /\ (forall pre m post,
          fileFields = pre ++ m :: post ->
          field_name m ∉ (field_name <$> post) ->
          st' !! field_name m = Some (normalized m (received raw (field_name m)))).
Proof.
  induction fileFields as [|m0 rest IH]; intros st st' Hread Hrun; simpl in Hrun.
  - injection Hrun as <-. split; [done|]. split; [done|].
    intros pre m post Heq. by destruct pre.
  - destruct (process_field bytes m0 st) as [st1|] eqn:Hstep; [|discriminate].
    destruct (process_field_read_as m0 st st1 (Hread _) Hstep) as [Hown Hother].
    assert (Hread1 : forall name, read_as st1 name (received raw name)).
    { intros name. destruct (decide (name = field_name m0)) as [-> | Hne].
      - by apply (normalized_read_as m0).
      - destruct (Hread name) as [[H | H] | [[H ?] | (f & r & H & ?)]];
          rewrite <- (Hother name Hne) in H.
        + by left; left.
        + by left; right.
        + right; left. done.
        + right; right. eauto. }
    destruct (IH st1 st' Hread1 Hrun) as (Hread' & Hframe & Hlast).
    split; [done|]. split.
    + intros name Hn. rewrite fmap_cons in Hn. apply not_elem_of_cons in Hn as [Hne Hn].
      rewrite Hframe by done. by apply Hother.
    + intros pre m post Heq Hpost. destruct pre as [|p pre]; simpl in Heq.
      * injection Heq as -> ->. by rewrite Hframe.
      * injection Heq as -> ->. by apply (Hlast pre m post).
Qed.

End SharedNames.

(** The last declaration of a name. *)
Lemma last_declaration (fileFields : list FileFieldMetadata) (name : string) :
  name ∈ (field_name <$> fileFields) ->
  exists pre m post,
    fileFields = pre ++ m :: post
    /\ field_name m = name
    /\ name ∉ (field_name <$> post).
Proof.
  induction fileFields as [|a l IH]; intros Hin; [by apply elem_of_nil in Hin|].
  destruct (decide (name ∈ (field_name <$> l))) as [Hl | Hl].
  - destruct (IH Hl) as (pre & m & post & -> & Hm & Hpost).
    by exists (a :: pre), m, post.
  - rewrite fmap_cons in Hin. apply elem_of_cons in Hin as [-> | Hin]; [|done].
    by exists [], a, l.
Qed.

Lemma process_field_return_other (bytes : string -> option Z) (m : FileFieldMetadata)
    (st st' : gmap string FilesEntry) (o : Outcome) (name : string) :
  process_field bytes m st = Return o st' ->
  name <> field_name m -> st' !! name = st !! name.
Proof.
  intros Hstep Hne.
  destruct (process_field_store bytes m st) as [H | [v H]];
    rewrite Hstep in H; simpl in H; subst st'; [done|].
  by rewrite lookup_insert_ne.
Qed.

(** C9, as the middleware has it.  When the middleware rejects at a field,
    the entry under every name declared before it (the rejecting field's
    own name apart) already holds the normalized shape of the last earlier
    declaration of that name: the first file for a scalar field with
    files, an empty array or an explicit absent value for an optional field
    without files, the array itself for an array field with files.  With
    pairwise distinct names this is the shape of every field declared
    earlier.  The rejection leaves these entries in place: under a scalar
    field's name the entry is no longer what the parser stored. *)
Theorem write_back_not_atomic (bytes : string -> option Z)
    (pre post : list FileFieldMetadata) (meta : FileFieldMetadata)
    (raw : gmap string (list File)) (st st' : gmap string FilesEntry) (e : Error) :
  validate_fields bytes pre (parsed raw) = Continue st ->
  process_field bytes meta st = Return (NextErr e) st' ->
  UseMulter_callback bytes (pre ++ meta :: post) None (Some (parsed raw))
    = (NextErr e, Some st')
  /\ (forall before m between,
        pre = before ++ m :: between ->
        field_name m ∉ (field_name <$> between) ->
        field_name m <> field_name meta ->
        st' !! field_name m = Some (normalized m (received raw (field_name m)))
        /\ (isArray m = false -> st' !! field_name m <> parsed raw !! field_name m))
  /\ (NoDup (field_name <$> (pre ++ [meta])) ->
      forall m, m ∈ pre ->
        st' !! field_name m = Some (normalized m (received raw (field_name m)))
        /\ (isArray m = false -> st' !! field_name m <> parsed raw !! field_name m)).
Proof.
  intros Hpre Hstep.
  destruct (validate_fields_read_as bytes raw pre (parsed raw) st
              (read_as_parsed raw) Hpre) as (_ & _ & Hlast).
  assert (Hshape : forall before m between,
            pre = before ++ m :: between ->
            field_name m ∉ (field_name <$> between) ->
            field_name m <> field_name meta ->
            st' !! field_name m = Some (normalized m (received raw (field_name m)))
            /\ (isArray m = false -> st' !! field_name m <> parsed raw !! field_name m)).
  { intros before m between Heq Hbetween Hne.
    assert (Hlook : st' !! field_name m
                    = Some (normalized m (received raw (field_name m)))).
    { rewrite (process_field_return_other bytes meta st st' _ _ Hstep Hne).
      by apply (Hlast before m between). }
    split; [exact Hlook|].
    intros Hscalar. rewrite Hlook. unfold normalized, parsed, received.
    rewrite Hscalar, lookup_fmap.
    destruct (raw !! field_name m) as [[|f r]|]; simpl; congruence. }
  split; [|split; [exact Hshape|]].
  - unfold UseMulter_callback.
    rewrite (validate_fields_continue_app bytes pre (meta :: post) _ st Hpre).
    simpl. by rewrite Hstep.
  - intros Hnd m Hm. apply list_elem_of_split in Hm as (before & between & ->).
    rewrite <- app_assoc in Hnd. simpl in Hnd.
    rewrite fmap_app, fmap_cons in Hnd.
    apply NoDup_app in Hnd as (_ & _ & Hnd). apply NoDup_cons in Hnd as [Hfresh _].
    rewrite fmap_app, not_elem_of_app in Hfresh. destruct Hfresh as [Hbetween Hmeta].
    apply (Hshape before m between); [done | done |].
    intros Heq. apply Hmeta. rewrite Heq, fmap_cons. left.
Qed.

Lemma write_back_not_atomic_witness :
  UseMulter_callback Bytes.bytes ([cover] ++ docs :: [avatar]) None
    (Some (parsed {[ "cover" := [png "c.png" 5]; "docs" := [png "a.png" 10] ]}))
    = (NextErr (TooFewFiles "docs" 2),
       Some {[ "cover" := OneFile (png "c.png" 5); "docs" := FileArray [png "a.png" 10] ]})
  /\ (forall before m between,
        [cover] = before ++ m :: between ->
        field_name m ∉ (field_name <$> between) ->
        field_name m <> field_name docs ->
        ({[ "cover" := OneFile (png "c.png" 5); "docs" := FileArray [png "a.png" 10] ]}
           : gmap string FilesEntry) !! field_name m
          = Some (normalized m
                    (received {[ "cover" := [png "c.png" 5]; "docs" := [png "a.png" 10] ]}
                       (field_name m)))
        /\ (isArray m = false ->
            ({[ "cover" := OneFile (png "c.png" 5); "docs" := FileArray [png "a.png" 10] ]}
               : gmap string FilesEntry) !! field_name m
              <> parsed {[ "cover" := [png "c.png" 5]; "docs" := [png "a.png" 10] ]}
                   !! field_name m))
  /\ (NoDup (field_name <$> ([cover] ++ [docs])) ->
      forall m, m ∈ [cover] ->
        ({[ "cover" := OneFile (png "c.png" 5); "docs" := FileArray [png "a.png" 10] ]}
           : gmap string FilesEntry) !! field_name m
          = Some (normalized m
                    (received {[ "cover" := [png "c.png" 5]; "docs" := [png "a.png" 10] ]}
                       (field_name m)))
        /\ (isArray m = false ->
            ({[ "cover" := OneFile (png "c.png" 5); "docs" := FileArray [png "a.png" 10] ]}
               : gmap string FilesEntry) !! field_name m
              <> parsed {[ "cover" := [png "c.png" 5]; "docs" := [png "a.png" 10] ]}
                   !! field_name m)).
Proof.
  apply (write_back_not_atomic Bytes.bytes [cover] [avatar] docs
           {[ "cover" := [png "c.png" 5]; "docs" := [png "a.png" 10] ]}
           {[ "cover" := OneFile (png "c.png" 5); "docs" := FileArray [png "a.png" 10] ]}).
  - vm_compute. reflexivity.
  - vm_compute. reflexivity.
Defined.

(** C9 fails as stated: an optional scalar field and an optional array
    field are declared under the name [gallery], no file is sent, and the
    required [avatar] rejects the request.  The scalar field was processed
    earlier, its normalized shape is the absent value, and the entry left
    under its name is the empty array of the later declaration. *)
Lemma scalar_entry_overwritten :
  isArray (sized "gallery" None None) = false
  /\ normalized (sized "gallery" None None) (sent [] "gallery") = Undefined
  /\ UseMulter_middleware Bytes.bytes
       [sized "gallery" None None; listed "gallery" None; avatar] (Some [])
     = (NextErr (NoFilesUploaded "avatar"), Some {[ "gallery" := FileArray [] ]}).
Proof. repeat split; vm_compute; reflexivity. Qed.

(** ** Scalar fields behind the parser *)

Lemma process_field_not_return_next (bytes : string -> option Z) (m : FileFieldMetadata)
    (st st' : gmap string FilesEntry) :
  process_field bytes m st <> Return Next st'.
Proof.
  unfold process_field, file_loop. repeat (case_match; try discriminate).
Qed.

Lemma validate_fields_not_return_next (bytes : string -> option Z)
    (fileFields : list FileFieldMetadata) :
  forall st st', validate_fields bytes fileFields st <> Return Next st'.
Proof.
  induction fileFields as [|m rest IH]; intros st st'; simpl; [discriminate|].
  destruct (process_field bytes m st) as [st1 | o st1] eqn:Hstep; [apply IH|].
  intros [= -> ->]. by apply (process_field_not_return_next bytes m st st').
Qed.

Lemma callback_next (bytes : string -> option Z) (fileFields : list FileFieldMetadata)
    (st0 st : gmap string FilesEntry) :
  UseMulter_callback bytes fileFields None (Some st0) = (Next, Some st) ->
  validate_fields bytes fileFields st0 = Continue st.
Proof.
  unfold UseMulter_callback.
  destruct (validate_fields bytes fileFields st0) as [st1 | o st1] eqn:Hrun.
  - by intros [= ->].
  - intros [= -> ->]. by destruct (validate_fields_not_return_next bytes fileFields st0 st).
Qed.

(** C2, as the middleware has it.  For a scalar field the parser is told
    to take one file.  A request that carries two or more files under a
    name that only scalar fields declare is refused by the parser with
    "Unexpected field", and the callback forwards that error before it
    looks at any field: the extra file rejects the request and no file is
    dropped in silence.  A request that is accepted carried at most one
    file under such a name, and the entry left under the name is that file,
    or the absent value when there was none. *)
Theorem scalar_field_takes_one_file (bytes : string -> option Z)
    (fileFields : list FileFieldMetadata) (meta : FileFieldMetadata)
    (parts : list (string * File)) :
  meta ∈ fileFields ->
  (forall m, m ∈ fileFields -> field_name m = field_name meta -> isArray m = false) ->
  ((2 <= length (sent parts (field_name meta)))%nat ->
     fst (UseMulter_middleware bytes fileFields (Some parts))
       = NextErr Multer.unexpected_file)
  /\ (forall st,
        UseMulter_middleware bytes fileFields (Some parts) = (Next, Some st) ->
        (sent parts (field_name meta) = [] /\ st !! field_name meta = Some Undefined)
        \/ (exists file, sent parts (field_name meta) = [file]
                         /\ st !! field_name meta = Some (OneFile file)))
  /\ (Multer.unexpected_file, message Multer.unexpected_file)
     = (ParserError "Unexpected field", "Unexpected field")
  /\ (field_name meta, 1) ∈ multerFields fileFields.
Proof.
  intros Hin Hscalar.
  pose proof (MulterFacts.filesLeft_scalar fileFields meta Hin Hscalar) as Hleft.
  assert (Hone : forall raw,
            Multer.accept (Multer.filesLeft (multerFields fileFields)) parts ∅ = (None, raw) ->
            (length (sent parts (field_name meta)) <= 1)%nat).
  { intros raw Hacc.
    destruct (MulterFacts.accept_counts parts _ _ _ Hacc (field_name meta)) as [_ Hc].
    rewrite Hleft in Hc. simpl in Hc. lia. }
  split; [|split; [|split]].
  - intros Htwo.
    destruct (MulterFacts.middleware_cases bytes fileFields parts)
      as [H | (raw & Hacc & _ & _)]; [exact H|].
    specialize (Hone raw Hacc). lia.
  - intros st Hnext.
    destruct (MulterFacts.middleware_cases bytes fileFields parts)
      as [H | (raw & Hacc & Hsent & Hmid)].
    { rewrite Hnext in H. discriminate H. }
    rewrite Hmid in Hnext. apply callback_next in Hnext.
    destruct (validate_fields_read_as bytes raw fileFields (parsed raw) st
                (read_as_parsed raw) Hnext) as (_ & _ & Hlast).
    destruct (last_declaration fileFields (field_name meta)) as (pre & m & post & Heq & Hm & Hpost).
    { apply list_elem_of_fmap. eauto. }
    specialize (Hlast pre m post Heq). rewrite Hm in Hlast. specialize (Hlast Hpost).
    assert (Hms : isArray m = false).
    { apply Hscalar; [|done]. rewrite Heq. apply elem_of_app. right. left. }
    unfold normalized in Hlast. rewrite Hms, Hsent in Hlast.
    specialize (Hone raw Hacc).
    destruct (sent parts (field_name meta)) as [|file [|file' rest]]; simpl in Hone.
    + by left.
    + right. by exists file.
    + lia.
  - reflexivity.
  - unfold multerFields. apply list_elem_of_In, in_map_iff. exists meta.
    split; [|by apply list_elem_of_In].
    by rewrite (Hscalar meta Hin eq_refl).
Qed.

Lemma scalar_field_takes_one_file_witness :
  ((2 <= length (sent [("cover", png "ok.png" 5); ("docs", png "a.png" 10);
                       ("cover", png "also.png" 6)] (field_name cover)))%nat ->
     fst (UseMulter_middleware Bytes.bytes [cover; docs]
            (Some [("cover", png "ok.png" 5); ("docs", png "a.png" 10);
                   ("cover", png "also.png" 6)]))
       = NextErr Multer.unexpected_file)
  /\ (forall st,
        UseMulter_middleware Bytes.bytes [cover; docs]
          (Some [("cover", png "ok.png" 5); ("docs", png "a.png" 10);
                 ("cover", png "also.png" 6)]) = (Next, Some st) ->
        (sent [("cover", png "ok.png" 5); ("docs", png "a.png" 10);
               ("cover", png "also.png" 6)] (field_name cover) = []
         /\ st !! field_name cover = Some Undefined)
        \/ (exists file,
              sent [("cover", png "ok.png" 5); ("docs", png "a.png" 10);
                    ("cover", png "also.png" 6)] (field_name cover) = [file]
              /\ st !! field_name cover = Some (OneFile file)))
  /\ (Multer.unexpected_file, message Multer.unexpected_file)
     = (ParserError "Unexpected field", "Unexpected field")
  /\ (field_name cover, 1) ∈ multerFields [cover; docs].
Proof.
  apply (scalar_field_takes_one_file Bytes.bytes [cover; docs] cover
           [("cover", png "ok.png" 5); ("docs", png "a.png" 10);
            ("cover", png "also.png" 6)]).
  - left.
  - intros m Hm Hname. apply elem_of_cons in Hm as [-> | Hm]; [reflexivity|].
    apply elem_of_cons in Hm as [-> | Hm]; [discriminate Hname|].
    by apply elem_of_nil in Hm.
Defined.

(** C2 fails as stated: the scalar field [cover] accepts the request that
    sends one small file under its name; with a second small file under the
    name the request is rejected, with the parser's error, and nothing is
    retained for the handler. *)
Lemma second_file_refused :
  isArray cover = false
  /\ UseMulter_middleware Bytes.bytes [cover] (Some [("cover", png "ok.png" 5)])
     = (Next, Some {[ "cover" := OneFile (png "ok.png" 5) ]})
  /\ fst (UseMulter_middleware Bytes.bytes [cover]
            (Some [("cover", png "ok.png" 5); ("cover", png "also.png" 6)]))
     = NextErr (ParserError "Unexpected field").
Proof. repeat split; vm_compute; reflexivity. Qed.

(** ** Array fields behind the parser *)



(** The bounds [minFiles = 2], [maxFiles = 5] on requests that send 1, 2,
    5 and 6 files: the sixth file is refused by the parser. *)
Lemma docs_two_to_five_sent :
  fst (UseMulter_middleware Bytes.bytes [docs]
         (Some (replicate 1 ("docs", png "a.png" 10)))) = NextErr (TooFewFiles "docs" 2)
  /\ fst (UseMulter_middleware Bytes.bytes [docs]
            (Some (replicate 2 ("docs", png "a.png" 10)))) = Next
  /\ fst (UseMulter_middleware Bytes.bytes [docs]
            (Some (replicate 5 ("docs", png "a.png" 10)))) = Next
  /\ fst (UseMulter_middleware Bytes.bytes [docs]
            (Some (replicate 6 ("docs", png "a.png" 10))))
     = NextErr (ParserError "Unexpected field").
Proof. repeat split; vm_compute; reflexivity. Qed.


(** C5 fails as stated: two scalar fields are declared under the name
    [cover] and one small file is sent under it.  No rule is violated, and
    the request is not accepted either: the second declaration finds the
    single file the first one wrote back, which is not iterable. *)
Lemma duplicate_names_break_the_order :
  all_violations Bytes.bytes [cover; sized "cover" None None]
    {[ "cover" := [png "ok.png" 5] ]} = []
  /\ UseMulter_callback Bytes.bytes [cover; sized "cover" None None] None
       (Some (parsed {[ "cover" := [png "ok.png" 5] ]}))
     = (ThrowsTypeError, Some {[ "cover" := OneFile (png "ok.png" 5) ]})
  /\ UseMulter_middleware Bytes.bytes [cover; sized "cover" None None]
       (Some [("cover", png "ok.png" 5)])
     = (ThrowsTypeError, Some {[ "cover" := OneFile (png "ok.png" 5) ]}).
Proof. repeat split; vm_compute; reflexivity. Qed.

(** * Further properties *)

(** ** The middleware and the entries of [req.files] *)

Lemma validate_fields_frame (bytes : string -> option Z)
    (fileFields : list FileFieldMetadata) :
  forall st,
    (forall name, name ∉ (field_name <$> fileFields) ->
       step_files (validate_fields bytes fileFields st) !! name = st !! name)
    /\ (forall name, is_Some (st !! name) ->
          is_Some (step_files (validate_fields bytes fileFields st) !! name)).
Proof.
  induction fileFields as [|m rest IH]; intros st; [by split|].
  assert (Hone : (forall name, name <> field_name m ->
                    step_files (process_field bytes m st) !! name = st !! name)
                 /\ (forall name, is_Some (st !! name) ->
                       is_Some (step_files (process_field bytes m st) !! name))).
  { destruct (process_field_store bytes m st) as [-> | [v ->]]; [by split|]. split.
    - intros name Hne. by rewrite lookup_insert_ne.
    - intros name Hs. destruct (decide (field_name m = name)) as [<- | Hne].
      + rewrite lookup_insert_eq. by eexists.
      + by rewrite lookup_insert_ne. }
  destruct Hone as [Hother Hkeep]. simpl.
  destruct (process_field bytes m st) as [st1 | o st1] eqn:Hstep; simpl in *.
  - destruct (IH st1) as [IH1 IH2]. split.
    + intros name Hn. rewrite ?fmap_cons in Hn. apply not_elem_of_cons in Hn as [Hne Hn].
      rewrite IH1 by done. by apply Hother.
    + intros name Hs. by apply IH2, Hkeep.
  - split.
    + intros name Hn. rewrite ?fmap_cons in Hn. apply not_elem_of_cons in Hn as [Hne Hn].
      by apply Hother.
    + exact Hkeep.
Qed.

(** X1.  Whatever the outcome, the middleware leaves alone every entry of
    [req.files] under a name that no declared field uses, and it never
    removes a key. *)
Theorem undeclared_entries_untouched (bytes : string -> option Z)
    (fileFields : list FileFieldMetadata) (err : option Error)
    (st : gmap string FilesEntry) :
  exists st',
    snd (UseMulter_callback bytes fileFields err (Some st)) = Some st'
    /\ (forall name, name ∉ (field_name <$> fileFields) -> st' !! name = st !! name)
    /\ (forall name, is_Some (st !! name) -> is_Some (st' !! name)).
Proof.
  unfold UseMulter_callback. destruct err as [e|]; [by exists st|].
  destruct (validate_fields_frame bytes fileFields st) as [H1 H2].
  destruct (validate_fields bytes fileFields st) as [st' | o st']; exists st'; by simpl in *.
Qed.



Lemma field_violation_too_many (bytes : string -> option Z) (m : FileFieldMetadata)
    (fs : list File) (n : string) (x : Z) :
  field_violation bytes m fs = Some (TooManyFiles n x) ->
  isArray m = true /\ maxFiles (options m) = Some x /\ x < Z.of_nat (length fs).
Proof.
  unfold field_violation, rule_missing, rule_cardinality, rule_files.
  destruct fs as [|f rest].
  { destruct (required (options m)); discriminate. }
  destruct (isArray m).
  - destruct (below_minFiles _ _); [discriminate|].
    destruct (above_maxFiles _ _) eqn:Ha.
    + intros [= <- <-]. apply above_maxFiles_spec in Ha as (x' & Hx & _ & Hlt).
      rewrite Hx. done.
    + intros H. by destruct (check_files_file_error _ _ _ _ H).
  - intros H. by destruct (check_files_file_error _ _ _ _ H).
Qed.

Lemma first_violation_too_many (bytes : string -> option Z)
    (fileFields : list FileFieldMetadata) (raw : gmap string (list File))
    (n : string) (x : Z) :
  first_violation bytes fileFields raw = Some (TooManyFiles n x) ->
  exists m, m ∈ fileFields /\ isArray m = true /\ maxFiles (options m) = Some x
            /\ x < Z.of_nat (length (received raw (field_name m))).
Proof.
  induction fileFields as [|m rest IH]; simpl; [discriminate|].
  destruct (field_violation bytes m (received raw (field_name m))) as [e|] eqn:Hv.
  - intros [= ->]. exists m. split; [left|]. by apply (field_violation_too_many bytes m _ n).
  - intros H. destruct (IH H) as (m' & Hin & Hrest). exists m'. split; [by right | done].
Qed.

(** X3.  Behind a parser that honoured [multerFields] (with pairwise
    distinct field names) the middleware never reports too many files: the
    parser's own limit fires first, and a zero [maxFiles] is not checked. *)
Theorem parser_limits_exclude_too_many (bytes : string -> option Z)
    (fileFields : list FileFieldMetadata) (raw : gmap string (list File)) :
  NoDup (field_name <$> fileFields) ->
  within_limits fileFields raw ->
  forall n x,
    fst (UseMulter_callback bytes fileFields None (Some (parsed raw)))
      <> NextErr (TooManyFiles n x).
Proof.
  intros Hnd Hlim n x. rewrite (callback_parsed bytes fileFields raw Hnd). simpl.
  destruct (first_violation bytes fileFields raw) as [e|] eqn:Hv; [|discriminate].
  intros [= ->].
  destruct (first_violation_too_many bytes fileFields raw n x Hv)
    as (m & Hin & Harr & Hmax & Hlt).
  specialize (Hlim (field_name m) x). cut (Z.of_nat (length (received raw (field_name m))) <= x).
  { lia. }
  apply Hlim. unfold multerFields. apply list_elem_of_In, in_map_iff.
  exists m. rewrite Harr, Hmax. split; [reflexivity | by apply list_elem_of_In].
Qed.

Lemma parser_limits_exclude_too_many_witness :
  fst (UseMulter_callback Bytes.bytes [docs; cover] None
         (Some (parsed {[ "docs" := replicate 5 (png "a.png" 1);
                          "cover" := [png "c.png" 2] ]})))
    <> NextErr (TooManyFiles "docs" 5).
Proof.
  apply (parser_limits_exclude_too_many Bytes.bytes [docs; cover]).
  - apply (bool_decide_unpack _). vm_compute. exact I.
  - intros name maxCount Hin. unfold multerFields in Hin. simpl in Hin.
    apply elem_of_cons in Hin as [[= -> ->] | Hin]; [vm_compute; discriminate|].
    apply elem_of_cons in Hin as [[= -> ->] | Hin]; [vm_compute; discriminate|].
    by apply elem_of_nil in Hin.
Defined.

(** ** The emitted schema *)

Section EmissionFacts.

Context {Other : Type}.

Lemma add_file_properties_other (fileFields : list FileFieldMetadata) (k : string) :
  forall props : gmap string (OpenApi.Property Other),
    k ∉ (field_name <$> fileFields) ->
    OpenApi.add_file_properties fileFields props !! k = props !! k.
Proof.
  induction fileFields as [|m rest IH]; intros props Hk; [reflexivity|].
  rewrite fmap_cons in Hk. apply not_elem_of_cons in Hk as [Hne Hk]. simpl.
  rewrite IH by done. unfold OpenApi.assign_property.
  case_decide; [done | by rewrite lookup_insert_ne].
Qed.

Lemma add_file_properties_last (pre post : list FileFieldMetadata)
    (m : FileFieldMetadata) :
  forall props : gmap string (OpenApi.Property Other),
    field_name m <> "__proto__" ->
    field_name m ∉ (field_name <$> post) ->
    OpenApi.add_file_properties (pre ++ m :: post) props !! field_name m
      = Some (OpenApi.FileField (OpenApi.file_property m)).
Proof.
  induction pre as [|p pre IH]; intros props Hproto Hpost; simpl.
  - rewrite add_file_properties_other by done. unfold OpenApi.assign_property.
    case_decide; [done | apply lookup_insert_eq].
  - by apply IH.
Qed.

Lemma add_file_properties_proto (fileFields : list FileFieldMetadata) :
  forall props : gmap string (OpenApi.Property Other),
    OpenApi.add_file_properties fileFields props !! "__proto__" = props !! "__proto__".
Proof.
  induction fileFields as [|m rest IH]; intros props; [reflexivity|]. simpl.
  rewrite IH. unfold OpenApi.assign_property.
  case_decide as Hn; [done|]. by rewrite lookup_insert_ne.
Qed.

End EmissionFacts.

(** X4.  Schema emission reads the DTO's schema with a property lookup on
    a plain object, so it throws exactly when the DTO's name is neither a
    key of the generated schemas nor the name of a member of
    [Object.prototype] (a class named [toString] finds the inherited
    function and nothing is thrown).  When it throws, the operation is left
    with a request body but no multipart entry.  Otherwise the operation
    gets a "multipart/form-data" entry whose schema is the object found,
    with type "object"; its properties hold under each declared name other
    than [__proto__] the property of the last declaration with that name,
    and every other property is kept; the other media types of the request
    body stay. *)
Theorem schema_emission {Other : Type} (dtoName : string)
    (schemas inherited : gmap string (OpenApi.Schema Other))
    (fileFields : list FileFieldMetadata) (operation : OpenApi.Operation Other) :
  let body := default (OpenApi.Build_RequestBody None None) (OpenApi.requestBody operation) in
  let media := default ∅ (OpenApi.content body) in
  let found :=
    match schemas !! dtoName with
    | Some dto => Some dto
    | None => inherited !! dtoName
    end in
  ((exists message left,
       OpenApi.UseMulter_openapi dtoName schemas inherited fileFields operation
         = inr (message, left))
   <-> schemas !! dtoName = None /\ inherited !! dtoName = None)
  /\ (found = None ->
      OpenApi.UseMulter_openapi dtoName schemas inherited fileFields operation
        = inr (OpenApi.schema_not_found dtoName,
               OpenApi.Build_Operation
                 (Some (OpenApi.Build_RequestBody (Some media) (OpenApi.body_rest body)))
                 (OpenApi.operation_rest operation)))
  /\ (forall dto, found = Some dto ->
      exists media' props,
        OpenApi.UseMulter_openapi dtoName schemas inherited fileFields operation
          = inl (OpenApi.Build_Operation
                   (Some (OpenApi.Build_RequestBody (Some media') (OpenApi.body_rest body)))
                   (OpenApi.operation_rest operation))
        /\ media' !! "multipart/form-data"
           = Some (OpenApi.WithSchema
                     (OpenApi.Build_Schema (Some "object") (Some props)
                        (OpenApi.schema_rest dto)))
        /\ (forall k, k <> "multipart/form-data" -> media' !! k = media !! k)
        /\ (forall pre m post,
              fileFields = pre ++ m :: post ->
              field_name m <> "__proto__" ->
              field_name m ∉ (field_name <$> post) ->
              props !! field_name m = Some (OpenApi.FileField (OpenApi.file_property m)))
        /\ (forall k, k ∉ (field_name <$> fileFields) \/ k = "__proto__" ->
              props !! k = default ∅ (OpenApi.properties dto) !! k))
  /\ (forall name, name ∈ OpenApi.Object_prototype_names ->
      schemas !! name = None ->
      exists operation',
        OpenApi.UseMulter_openapi name schemas OpenApi.Object_prototype fileFields operation
          = inl operation').
Proof.
  intros body media found.
  assert (Hfound : OpenApi.get_property schemas inherited dtoName = found) by reflexivity.
  split; [|split; [|split]].
  - unfold OpenApi.UseMulter_openapi. rewrite Hfound. subst found. split.
    + intros (message & left & H).
      destruct (schemas !! dtoName) as [dto|]; [discriminate|].
      destruct (inherited !! dtoName) as [dto|]; [discriminate | done].
    + intros [-> ->]. by eexists _, _.
  - intros Hnone. unfold OpenApi.UseMulter_openapi. rewrite Hfound, Hnone. reflexivity.
  - intros dto Hdto. unfold OpenApi.UseMulter_openapi. rewrite Hfound, Hdto.
    fold body. fold media. eexists _, _. split; [reflexivity|].
    split; [apply lookup_insert_eq|]. split; [|split].
    + intros k Hk. by rewrite lookup_insert_ne.
    + intros pre m post -> Hproto Hpost. by apply add_file_properties_last.
    + intros k [Hk | ->]; [by apply add_file_properties_other|].
      apply add_file_properties_proto.
  - intros name Hin Hown. unfold OpenApi.UseMulter_openapi, OpenApi.get_property.
    rewrite Hown.
    assert (Hsome : is_Some (OpenApi.Object_prototype (Other := Other) !! name)).
    { unfold OpenApi.Object_prototype, OpenApi.Object_prototype_names in *.
      repeat (apply elem_of_cons in Hin as [-> | Hin]; [by eexists|]).
      by apply elem_of_nil in Hin. }
    destruct Hsome as [dto ->]. by eexists.
Qed.

Lemma when_truthy_Some (n : option Z) (x : Z) :
  OpenApi.when_truthy n = Some x <-> n = Some x /\ x <> 0.
Proof.
  unfold OpenApi.when_truthy. destruct n as [z|]; simpl.
  - destruct (Z.eqb_spec z 0); simpl; split; try discriminate.
    + intros [[= ->] ?]. done.
    + intros [= ->]. done.
    + intros [[= ->] ?]. done.
  - split; [discriminate | intros [? _]; discriminate].
Qed.

Lemma below_minFiles_false (o : FileFieldOptions) (fs : list File) :
  below_minFiles o (Some (FileArray fs)) = false <->
  forall x, minFiles o = Some x -> x <> 0 -> x <= Z.of_nat (length fs).
Proof.
  rewrite <- not_true_iff_false, below_minFiles_spec. split.
  - intros Hno x Hx Hnz. destruct (decide (x <= Z.of_nat (length fs))); [done|].
    destruct Hno. exists x. repeat split; [done..|lia].
  - intros Hall (x & Hx & Hnz & Hlt). specialize (Hall x Hx Hnz). lia.
Qed.

Lemma above_maxFiles_false (o : FileFieldOptions) (fs : list File) :
  above_maxFiles o (Some (FileArray fs)) = false <->
  forall x, maxFiles o = Some x -> x <> 0 -> Z.of_nat (length fs) <= x.
Proof.
  rewrite <- not_true_iff_false, above_maxFiles_spec. split.
  - intros Hno x Hx Hnz. destruct (decide (Z.of_nat (length fs) <= x)); [done|].
    destruct Hno. exists x. repeat split; [done..|lia].
  - intros Hall (x & Hx & Hnz & Hlt). specialize (Hall x Hx Hnz). lia.
Qed.

(** X5.  For an array field with files the schema and the middleware
    agree: the cardinality checks pass exactly when the count lies within
    the [minItems] and [maxItems] the schema shows.  Without files they do
    not: an optional array field passes whatever [minItems] says. *)
Theorem advertised_bounds_are_enforced (bytes : string -> option Z)
    (meta : FileFieldMetadata) :
  isArray meta = true ->
  (forall fs, fs <> [] ->
     (below_minFiles (options meta) (Some (FileArray fs)) = false
      /\ above_maxFiles (options meta) (Some (FileArray fs)) = false)
     <-> ((forall x, OpenApi.minItems (OpenApi.file_property meta) = Some x ->
             x <= Z.of_nat (length fs))
          /\ (forall x, OpenApi.maxItems (OpenApi.file_property meta) = Some x ->
                Z.of_nat (length fs) <= x)))
  /\ (required (options meta) = false ->
      forall st, st !! field_name meta = None ->
        process_field bytes meta st = Continue (<[field_name meta := FileArray []]> st)).
Proof.
  intros Harr. split.
  - intros fs _. unfold OpenApi.file_property. rewrite Harr. simpl.
    rewrite below_minFiles_false, above_maxFiles_false.
    split; intros [H1 H2]; split; intros x Hx.
    + apply when_truthy_Some in Hx as [Hx Hnz]. by apply H1.
    + apply when_truthy_Some in Hx as [Hx Hnz]. by apply H2.
    + intros Hnz. apply H1. by apply when_truthy_Some.
    + intros Hnz. apply H2. by apply when_truthy_Some.
  - intros Hopt st Hst. unfold process_field. rewrite Hst. simpl. by rewrite Hopt, Harr.
Qed.

Lemma advertised_bounds_are_enforced_witness :
  (forall fs, fs <> [] ->
     (below_minFiles (options docs) (Some (FileArray fs)) = false
      /\ above_maxFiles (options docs) (Some (FileArray fs)) = false)
     <-> ((forall x, OpenApi.minItems (OpenApi.file_property docs) = Some x ->
             x <= Z.of_nat (length fs))
          /\ (forall x, OpenApi.maxItems (OpenApi.file_property docs) = Some x ->
                Z.of_nat (length fs) <= x)))
  /\ (required (options docs) = false ->
      forall st, st !! field_name docs = None ->
        process_field Bytes.bytes docs st = Continue (<[field_name docs := FileArray []]> st)).
Proof. apply (advertised_bounds_are_enforced Bytes.bytes docs). reflexivity. Defined.

(** ** [BodyMultipart] after the middleware *)

Lemma callback_accepted (bytes : string -> option Z)
    (fileFields : list FileFieldMetadata) (raw : gmap string (list File))
    (st' : gmap string FilesEntry) :
  NoDup (field_name <$> fileFields) ->
  UseMulter_callback bytes fileFields None (Some (parsed raw)) = (Next, Some st') ->
  first_violation bytes fileFields raw = None
  /\ st' = written_until bytes fileFields raw (parsed raw).
Proof.
  intros Hnd. rewrite (callback_parsed bytes fileFields raw Hnd).
  destruct (first_violation bytes fileFields raw); intros [= <-]; done.
Qed.

Lemma BodyMultipart_object_lookup {V T : Type} (toDTO : T -> gmap string V -> gmap string V)
    (type : option T) (body : option (gmap string V)) (m : gmap string FilesEntry)
    (k : string) :
  Multipart.BodyMultipart toDTO type body (Multipart.FilesObject m) !! k =
    match m !! k with
    | Some e => Some (Multipart.FileEntry e)
    | None =>
        Multipart.BodyValue <$>
          (match type with
           | Some t => toDTO t (default ∅ body)
           | None => default ∅ body
           end) !! k
    end.
Proof.
  unfold Multipart.BodyMultipart. rewrite lookup_union, !lookup_fmap.
  destruct (m !! k); simpl; [|by rewrite (left_id_L None _)].
  by destruct (_ !! k).
Qed.



(** ** [getEnumValues] *)

Module EnumsFacts.

Import Enums.

Lemma from_set_spec (xs : list string) :
  forall seen,
    NoDup (from_set seen xs)
    /\ (forall x, x ∈ from_set seen xs <-> x ∈ xs /\ x ∉ seen)
    /\ sublist (from_set seen xs) xs.
Proof.
  induction xs as [|x t IH]; intros seen; simpl.
  - split; [constructor|]. split; [|constructor].
    intros y. split; [intros H; by apply elem_of_nil in H | intros [H _]; by apply elem_of_nil in H].
  - case_bool_decide as Hx.
    + destruct (IH seen) as (Hnd & Hin & Hsub). split; [done|]. split.
      * intros y. rewrite Hin, elem_of_cons. split; [tauto|].
        intros [[-> | Hy] Hn]; [done | tauto].
      * by apply sublist_cons.
    + destruct (IH (x :: seen)) as (Hnd & Hin & Hsub). split; [|split].
      * apply NoDup_cons. split; [|done]. rewrite Hin. intros [_ Hn].
        apply Hn. left.
      * intros y. rewrite !elem_of_cons, Hin, not_elem_of_cons. split.
        -- intros [-> | (Hy & Hne & Hn)]; [tauto | tauto].
        -- intros [[-> | Hy] Hn]; [by left|].
           destruct (decide (y = x)) as [-> | Hne]; [by left | right; tauto].
      * by apply sublist_skip.
Qed.

(** Where [x] comes before [y] in the result, the first [x] of the input
    comes before every [y]. *)
Lemma from_set_order (xs : list string) :
  forall seen x y r1 r2 r3,
    from_set seen xs = r1 ++ x :: (r2 ++ y :: r3) ->
    exists l1 l2, xs = l1 ++ x :: l2 /\ (x ∉ l1) /\ (y ∉ l1).
Proof.
  induction xs as [|a t IH]; intros seen x y r1 r2 r3 Heq; simpl in Heq.
  - by destruct r1.
  - assert (Hmem : forall seen' z, z ∈ from_set seen' t -> z ∉ seen').
    { intros seen' z Hz. by apply (from_set_spec t seen') in Hz as [_ Hz]. }
    case_bool_decide as Ha.
    + destruct (IH _ _ _ _ _ _ Heq) as (l1 & l2 & -> & Hx & Hy).
      assert (Hxin : x ∈ from_set seen (l1 ++ x :: l2)) by (rewrite Heq; set_solver).
      assert (Hyin : y ∈ from_set seen (l1 ++ x :: l2)) by (rewrite Heq; set_solver).
      apply Hmem in Hxin, Hyin.
      exists (a :: l1), l2. split; [reflexivity|].
      rewrite !not_elem_of_cons. repeat split; try done; congruence.
    + destruct r1 as [|b r1]; simpl in Heq.
      * injection Heq as -> _. exists [], t. repeat split; apply not_elem_of_nil.
      * injection Heq as -> Heq.
        destruct (IH _ _ _ _ _ _ Heq) as (l1 & l2 & -> & Hx & Hy).
        assert (Hxin : x ∈ from_set (b :: seen) (l1 ++ x :: l2)) by (rewrite Heq; set_solver).
        assert (Hyin : y ∈ from_set (b :: seen) (l1 ++ x :: l2)) by (rewrite Heq; set_solver).
        apply Hmem in Hxin, Hyin. apply not_elem_of_cons in Hxin as [Hxb _].
        apply not_elem_of_cons in Hyin as [Hyb _].
        exists (b :: l1), l2. split; [reflexivity|].
        rewrite !not_elem_of_cons. repeat split; done.
Qed.

Lemma string_values_elem (enumType : list (string * EnumValue)) (s : string) :
  s ∈ string_values enumType <->
  exists key, (key, StringValue s) ∈ enumType /\ is_numeric key = false.
Proof.
  unfold string_values. rewrite list_elem_of_omap. split.
  - intros (v & Hv & Hs). destruct v; try discriminate. injection Hs as ->.
    apply list_elem_of_In, in_map_iff in Hv as ([key v] & Heq & Hin). simpl in Heq. subst v.
    apply filter_In in Hin as [Hin Hk]. simpl in Hk. apply negb_true_iff in Hk.
    exists key. split; [by apply list_elem_of_In | done].
  - intros (key & Hin & Hk). exists (StringValue s). split; [|reflexivity].
    apply list_elem_of_In, in_map_iff. exists (key, StringValue s). split; [reflexivity|].
    apply filter_In. split; [by apply list_elem_of_In|]. simpl. by rewrite Hk.
Qed.

Lemma digit_not_whitespace (c : ascii) : is_digit c = true -> Bytes.is_whitespace c = false.
Proof.
  destruct c as [[] [] [] [] [] [] [] []]; intros H; try reflexivity;
    vm_compute in H; discriminate.
Qed.

Lemma drop_digits_all (l : list ascii) : forallb is_digit l = true -> drop_digits l = [].
Proof.
  induction l as [|c t IH]; simpl; [done|].
  intros H. apply andb_true_iff in H as [-> H]. by apply IH.
Qed.

Lemma trim_chars_digits (l : list ascii) : forallb is_digit l = true -> trim_chars l = l.
Proof.
  intros H. unfold trim_chars.
  set (drop := fix drop (l : list ascii) : list ascii :=
                 match l with
                 | c :: t => if Bytes.is_whitespace c then drop t else l
                 | [] => []
                 end).
  assert (Hdrop : forall k, forallb is_digit k = true -> drop k = k).
  { intros [|c t] Hk; [reflexivity|]. simpl in *.
    apply andb_true_iff in Hk as [Hc _]. by rewrite digit_not_whitespace. }
  rewrite (Hdrop l H), Hdrop; [apply rev_involutive|].
  apply forallb_forall. intros c Hc. apply in_rev in Hc.
  by apply (proj1 (forallb_forall is_digit l) H).
Qed.

(** A string of one or more decimal digits reads as a number. *)
Lemma digits_are_numeric (key : string) :
  some_of is_digit (list_ascii_of_string key) = true -> is_numeric key = true.
Proof.
  unfold is_numeric, some_of. destruct (list_ascii_of_string key) as [|c t] eqn:Hl; [done|].
  intros H. rewrite (trim_chars_digits _ H).
  pose proof H as Hd. simpl in Hd. apply andb_true_iff in Hd as [Hc Ht].
  cut (non_decimal (c :: t) || unsigned_decimal (c :: t) = true).
  { intros Hcut. clear -Hc Hcut.
    destruct c as [[] [] [] [] [] [] [] []]; try (vm_compute in Hc; discriminate Hc);
      exact Hcut. }
  apply orb_true_iff. right. unfold unsigned_decimal.
  case_bool_decide as Heq.
  { reflexivity. }
  rewrite (drop_digits_all _ H). simpl. by rewrite Hc.
Qed.

Lemma pretty_N_char_digit (x : N) : is_digit (pretty_N_char x) = true.
Proof. unfold pretty_N_char. repeat case_match; reflexivity. Qed.

Lemma pretty_N_go_digits (x : N) :
  forall s,
    some_of is_digit (list_ascii_of_string s) = true ->
    some_of is_digit (list_ascii_of_string (pretty_N_go x s)) = true.
Proof.
  induction (N.lt_wf_0 x) as [x _ IH]. intros s Hs.
  destruct (decide (0 < x)%N) as [Hpos | Hzero].
  - rewrite pretty_N_go_step by done.
    apply IH; [apply N.div_lt; lia|]. simpl.
    rewrite pretty_N_char_digit. simpl.
    unfold some_of in Hs. destruct (list_ascii_of_string s); [reflexivity | exact Hs].
  - replace x with 0%N by lia. by rewrite pretty_N_go_0.
Qed.

(** An array index, as a key, reads as a number. *)
Lemma index_is_numeric (i : nat) : is_numeric (pretty (N.of_nat i)) = true.
Proof.
  apply digits_are_numeric. unfold pretty, pretty_N.
  case_decide as Hz; [reflexivity|].
  destruct (decide (0 < N.of_nat i)%N) as [Hpos|]; [|lia].
  rewrite pretty_N_go_step by done.
  apply pretty_N_go_digits. simpl. by rewrite pretty_N_char_digit.
Qed.

End EnumsFacts.

(** X7.  [getEnumValues] returns each string value of a non-numeric key
    once, in the order of first occurrence: the result has no duplicates,
    holds exactly the strings stored under keys that do not read as
    numbers, and wherever it lists [x] before [y], the first [x] among the
    values comes before every [y] (for the values UP, DOWN, UP the result
    is UP, DOWN and not DOWN, UP). *)
Theorem getEnumValues_spec (enumType : list (string * Enums.EnumValue)) :
  NoDup (Enums.getEnumValues enumType)
  /\ (forall s, s ∈ Enums.getEnumValues enumType <->
        exists key, (key, Enums.StringValue s) ∈ enumType /\ Enums.is_numeric key = false)
  /\ sublist (Enums.getEnumValues enumType) (Enums.string_values enumType)
  /\ (forall x y r1 r2 r3,
        Enums.getEnumValues enumType = r1 ++ x :: (r2 ++ y :: r3) ->
        exists l1 l2,
          Enums.string_values enumType = l1 ++ x :: l2 /\ (x ∉ l1) /\ (y ∉ l1))
  /\ Enums.getEnumValues
       [("A", Enums.StringValue "UP"); ("B", Enums.StringValue "DOWN");
        ("C", Enums.StringValue "UP")] = ["UP"; "DOWN"].
Proof.
  unfold Enums.getEnumValues.
  destruct (EnumsFacts.from_set_spec (Enums.string_values enumType) []) as (Hnd & Hin & Hsub).
  split; [done|]. split; [|split; [done|split]].
  - intros s. rewrite Hin, EnumsFacts.string_values_elem. split; [tauto|].
    intros H. split; [done|]. apply not_elem_of_nil.
  - intros x y r1 r2 r3 Heq. by apply (EnumsFacts.from_set_order _ _ _ _ _ _ _ Heq).
  - vm_compute. reflexivity.
Qed.



(** A string enum, a heterogeneous one with a repeated value, and the way
    keys are read as numbers. *)
Lemma getEnumValues_examples :
  Enums.getEnumValues
    [("Up", Enums.StringValue "UP"); ("Down", Enums.StringValue "DOWN");
     ("Again", Enums.StringValue "UP"); ("1e3", Enums.StringValue "big");
     ("Size", Enums.NumberValue 3)] = ["UP"; "DOWN"]
  /\ map Enums.is_numeric ["12"; " 7 "; ""; "0x1F"; "-0x1F"; ".5"; "5."; "."; "1e"; "+Infinity";
                            "infinity"; "1_000"; "A"]
     = [true; true; true; true; false; true; true; false; false; true; false; false; false].
Proof. split; vm_compute; reflexivity. Qed.

(** ** More on [toSlug] *)

Module SlugFacts.

Import Utils.

Local Open Scope N_scope.

Lemma upper_is_not_lower (c : N) : is_upper c = true -> is_lower c = false.
Proof.
  unfold is_upper, is_lower. rewrite andb_true_iff, !N.leb_le. intros [? ?].
  apply andb_false_iff. left. apply N.leb_gt. lia.
Qed.

Lemma replace_camel_head (a : N) (t : list N) :
  exists t', replace_camel (a :: t) = a :: t'.
Proof.
  destruct t as [|b t]; [by exists []|].
  change (replace_camel (a :: b :: t))
    with (if is_lower a && is_upper b then a :: 95 :: b :: replace_camel t
          else a :: replace_camel (b :: t)).
  destruct (is_lower a && is_upper b); eauto.
Qed.

Lemma humpless_cons (a : N) (s : list N) :
  humpless s = true ->
  (forall b t, s = b :: t -> is_lower a && is_upper b = false) ->
  humpless (a :: s) = true.
Proof.
  intros Hs Hhead. destruct s as [|b t]; [reflexivity|].
  change (humpless (a :: b :: t))
    with (negb (is_lower a && is_upper b) && humpless (b :: t)).
  by rewrite (Hhead b t eq_refl), Hs.
Qed.

Lemma replace_camel_humpless_bounded (n : nat) :
  forall s, (length s <= n)%nat -> humpless (replace_camel s) = true.
Proof.
  induction n as [|n IH]; intros s Hlen.
  { destruct s; [reflexivity | simpl in Hlen; lia]. }
  destruct s as [|a [|b t]]; [reflexivity | reflexivity |].
  change (replace_camel (a :: b :: t))
    with (if is_lower a && is_upper b then a :: 95 :: b :: replace_camel t
          else a :: replace_camel (b :: t)).
  destruct (is_lower a && is_upper b) eqn:Hhump.
  - apply andb_true_iff in Hhump as [Ha Hb].
    apply humpless_cons; [apply humpless_cons; [apply humpless_cons|]|].
    + apply IH. simpl in Hlen. lia.
    + intros c t' _. by rewrite (upper_is_not_lower b Hb).
    + intros c t' [= <- _]. reflexivity.
    + intros c t' [= <- _]. apply andb_false_r.
  - apply humpless_cons.
    + apply IH. simpl in *. lia.
    + intros c t' Heq. destruct (replace_camel_head b t) as [t'' Ht].
      rewrite Ht in Heq. by injection Heq as <- _.
Qed.

Lemma replace_camel_humpless (s : list N) : humpless (replace_camel s) = true.
Proof. by apply (replace_camel_humpless_bounded (length s)). Qed.

Lemma replace_camel_fixed (s : list N) : humpless s = true -> replace_camel s = s.
Proof.
  induction s as [|a rest IH]; [reflexivity|].
  destruct rest as [|b t]; [reflexivity|]. intros H.
  change (humpless (a :: b :: t))
    with (negb (is_lower a && is_upper b) && humpless (b :: t)) in H.
  apply andb_true_iff in H as [Hhump Hrest]. apply negb_true_iff in Hhump.
  change (replace_camel (a :: b :: t))
    with (if is_lower a && is_upper b then a :: 95 :: b :: replace_camel t
          else a :: replace_camel (b :: t)).
  by rewrite Hhump, IH.
Qed.

Lemma trimStart_app (s t : list N) :
  trimStart (s ++ t) = if blank s then trimStart t else trimStart s ++ t.
Proof.
  unfold blank. induction s as [|c s IH]; simpl; [reflexivity|].
  destruct (is_white_space c); simpl; [exact IH | reflexivity].
Qed.

Lemma trimStart_nil_iff (s : list N) : trimStart s = [] <-> blank s = true.
Proof.
  unfold blank. induction s as [|c s IH]; simpl; [done|].
  destruct (is_white_space c); simpl; [exact IH | split; discriminate].
Qed.

Lemma blank_rev (s : list N) : blank (rev s) = blank s.
Proof.
  unfold blank. induction s as [|c s IH]; simpl; [reflexivity|].
  rewrite forallb_app, IH. simpl. rewrite andb_true_r. apply andb_comm.
Qed.

Lemma trimStart_not_blank (s : list N) : blank s = false -> blank (trimStart s) = false.
Proof.
  unfold blank. induction s as [|c s IH]; simpl; [done|].
  destruct (is_white_space c) eqn:Hc; simpl; [exact IH|]. intros _. by rewrite Hc.
Qed.

Lemma trim_nil_iff (s : list N) : trim s = [] <-> blank s = true.
Proof.
  unfold trim, trimEnd. split.
  - intros H. destruct (blank s) eqn:Hb; [reflexivity|].
    apply trimStart_not_blank in Hb.
    assert (Hr : trimStart (rev (trimStart s)) = []).
    { destruct (trimStart (rev (trimStart s))); [reflexivity|].
      apply (f_equal (@length N)) in H. rewrite length_rev in H. discriminate. }
    apply trimStart_nil_iff in Hr. rewrite blank_rev in Hr. congruence.
  - intros H. by rewrite (proj2 (trimStart_nil_iff s) H).
Qed.

Lemma trim_surrounded (before s after : list N) :
  blank before = true -> blank after = true ->
  trim (before ++ s ++ after) = trim s.
Proof.
  intros Hb Ha. unfold trim. rewrite trimStart_app, Hb, trimStart_app.
  destruct (blank s) eqn:Hs.
  - rewrite (proj2 (trimStart_nil_iff after) Ha), (proj2 (trimStart_nil_iff s) Hs). reflexivity.
  - unfold trimEnd. rewrite rev_app_distr, trimStart_app, blank_rev, Ha. reflexivity.
Qed.

Lemma replace_camel_nil_iff (s : list N) : replace_camel s = [] <-> s = [].
Proof.
  split; [|by intros ->]. destruct s as [|a t]; [done|].
  destruct (replace_camel_head a t) as [t' ->]. discriminate.
Qed.

Lemma replace_other_nil_iff (s : list N) : replace_other false s = [] <-> s = [].
Proof.
  split; [|by intros ->]. destruct s as [|c t]; [done|]. simpl.
  destruct (in_class c); discriminate.
Qed.

End SlugFacts.

(** X9.  The second [.replace(/([a-z])([A-Z])/g, "$1_$2")] of [toSlug]
    changes nothing: after one pass no lowercase letter is followed by an
    uppercase one, so [toSlug] is the chain with a single such pass. *)
Theorem toSlug_second_pass_is_idle (str : list N) :
  Utils.replace_camel (Utils.replace_camel str) = Utils.replace_camel str
  /\ humpless (Utils.replace_camel str) = true
  /\ Utils.toSlug str
     = Utils.toUpperCase (Utils.replace_other false (Utils.replace_camel (Utils.trim str))).
Proof.
  assert (H : forall s, Utils.replace_camel (Utils.replace_camel s) = Utils.replace_camel s)
    by (intros s; apply SlugFacts.replace_camel_fixed, SlugFacts.replace_camel_humpless).
  split; [apply H|]. split; [apply SlugFacts.replace_camel_humpless|].
  unfold Utils.toSlug. by rewrite H.
Qed.

(** X10.  [toSlug] gives the empty string exactly for an input that is
    empty or all white space, and it ignores white space around its
    input. *)
Theorem toSlug_blank_and_padding (str : list N) :
  (Utils.toSlug str = [] <-> blank str = true)
  /\ (forall before after,
        blank before = true -> blank after = true ->
        Utils.toSlug (before ++ str ++ after) = Utils.toSlug str).
Proof.
  split.
  - unfold Utils.toSlug, Utils.toUpperCase. split.
    + intros H. apply map_eq_nil in H.
      apply (proj1 (SlugFacts.replace_other_nil_iff _)) in H.
      apply (proj1 (SlugFacts.replace_camel_nil_iff _)) in H.
      apply (proj1 (SlugFacts.replace_camel_nil_iff _)) in H.
      by apply (proj1 (SlugFacts.trim_nil_iff _)).
    + intros H. apply (proj2 (SlugFacts.trim_nil_iff _)) in H. by rewrite H.
  - intros before after Hb Ha. unfold Utils.toSlug.
    by rewrite SlugFacts.trim_surrounded.
Qed.

(** ** [RequestGuard] and [RequestResolver] *)

(** X11.  [RequestGuard] calls [next] exactly when the validator resolved
    to [true].  Whatever else it resolved to, a response is sent whose
    status is never 0 or NaN (403 stands in), whose body repeats that
    status and whose message is never empty; a validator that throws or
    rejects gives the 500 response; nothing happens while the validator has
    not settled. *)
Theorem RequestGuard_outcomes {Reason : Type}
    (isValid : AsyncResolver.Promise Reason Guards.Verdict) :
  (Guards.RequestGuard isValid = Guards.CallsNext
   <-> isValid = AsyncResolver.Fulfilled Guards.Allowed)
  /\ (forall status body_status message,
        Guards.RequestGuard isValid = Guards.Sends status body_status message ->
        truthy_number status = true /\ body_status = status
        /\ truthy_string message = true)
  /\ (forall e, isValid = AsyncResolver.Rejected e ->
        Guards.RequestGuard isValid
          = Guards.Sends (Num 500) (Num 500) "Server error during validation")
  /\ (Guards.RequestGuard isValid = Guards.Waits <-> isValid = AsyncResolver.Pending).
Proof.
  destruct isValid as [[|message status] | e |]; simpl.
  - repeat split; try done; discriminate.
  - split; [split; discriminate|]. split; [|split; [discriminate | split; discriminate]].
    intros s bs msg [= <- <- <-]. repeat split.
    + destruct status as [n|]; [|reflexivity]. by destruct (truthy_number n) eqn:Hn.
    + destruct message as [m|]; [|reflexivity]. by destruct (truthy_string m) eqn:Hm.
  - split; [split; discriminate|]. split; [|split; [done | split; discriminate]].
    intros s bs msg [= <- <- <-]. done.
  - repeat split; try done; discriminate.
Qed.

(** X12.  [RequestResolver] never rejects.  Its value is [null] exactly
    when the extractor threw or rejected, returned something falsy, or the
    conversion to the DTO class threw; otherwise it is the converted data,
    or the extracted data itself when no class was given. *)
Theorem RequestResolver_outcomes {Reason Raw Dto DtoClass : Type}
    (truthy_raw : Raw -> bool) (toDTO : DtoClass -> Raw -> Dto + Reason)
    (dtoClass : option DtoClass) (rawData : AsyncResolver.Promise Reason Raw) :
  let value := Guards.RequestResolver truthy_raw toDTO dtoClass rawData in
  (forall e, value <> AsyncResolver.Rejected e)
  /\ (value = AsyncResolver.Fulfilled Guards.Null <->
      (exists e, rawData = AsyncResolver.Rejected e)
      \/ (exists raw, rawData = AsyncResolver.Fulfilled raw
            /\ (truthy_raw raw = false
                \/ exists cls e, dtoClass = Some cls /\ toDTO cls raw = inr e)))
  /\ (forall raw, value = AsyncResolver.Fulfilled (Guards.Unconverted raw) <->
        rawData = AsyncResolver.Fulfilled raw /\ truthy_raw raw = true /\ dtoClass = None)
  /\ (forall d, value = AsyncResolver.Fulfilled (Guards.Converted d) <->
        exists raw cls, rawData = AsyncResolver.Fulfilled raw /\ truthy_raw raw = true
                        /\ dtoClass = Some cls /\ toDTO cls raw = inl d).
Proof.
  intros value. unfold value, Guards.RequestResolver.
  destruct rawData as [raw | e |].
  - destruct (truthy_raw raw) eqn:Ht; simpl.
    + destruct dtoClass as [cls|]; [destruct (toDTO cls raw) as [d|e] eqn:Hd|].
      * split; [discriminate|]. split; [|split].
        -- split; [discriminate|].
           intros [[e ?] | (raw' & [= <-] & [? | (cls' & e & [= <-] & ?)])]; congruence.
        -- intros raw'. split; [discriminate | intros (_ & _ & ?); discriminate].
        -- intros d'. split.
           ++ intros [= <-]. by exists raw, cls.
           ++ intros (raw' & cls' & [= <-] & _ & [= <-] & ?). congruence.
      * split; [discriminate|]. split; [|split].
        -- split; [|done]. intros _. right. exists raw. split; [done|]. right. by exists cls, e.
        -- intros raw'. split; [discriminate | intros (_ & _ & ?); discriminate].
        -- intros d'. split; [discriminate|].
           intros (raw' & cls' & [= <-] & _ & [= <-] & ?). congruence.
      * split; [discriminate|]. split; [|split].
        -- split; [discriminate|].
           intros [[e ?] | (raw' & [= <-] & [? | (cls' & e & ? & ?)])]; congruence.
        -- intros raw'. split; [intros [= <-]; done | intros ([= <-] & _ & _); done].
        -- intros d'. split; [discriminate|].
           intros (raw' & cls' & _ & _ & ? & _). discriminate.
    + split; [discriminate|]. split; [|split].
      * split; [|done]. intros _. right. exists raw. split; [done | by left].
      * intros raw'. split; [discriminate | intros ([= <-] & ? & _); congruence].
      * intros d'. split; [discriminate|].
        intros (raw' & cls' & [= <-] & ? & _). congruence.
  - split; [discriminate|]. split; [|split].
    + split; [|done]. intros _. left. by exists e.
    + intros raw'. split; [discriminate | intros (? & _); discriminate].
    + intros d'. split; [discriminate | intros (raw' & cls' & ? & _); discriminate].
  - split; [discriminate|]. split; [|split].
    + split; [discriminate|].
      intros [[e ?] | (raw' & ? & _)]; discriminate.
    + intros raw'. split; [discriminate | intros (? & _); discriminate].
    + intros d'. split; [discriminate | intros (raw' & cls' & ? & _); discriminate].
Qed.

(** ** More on the resolver *)

Lemma Promise_all_outcome {Reason A : Type} (ps : list (AsyncResolver.Promise Reason A)) :
  (forall e, AsyncResolver.Promise_all ps = AsyncResolver.Rejected e ->
     AsyncResolver.Rejected e ∈ ps)
  /\ ((exists e, AsyncResolver.Rejected e ∈ ps) ->
      exists e, AsyncResolver.Promise_all ps = AsyncResolver.Rejected e)
  /\ ((exists l, AsyncResolver.Promise_all ps = AsyncResolver.Fulfilled l) <->
      Forall (fun p => exists a, p = AsyncResolver.Fulfilled a) ps).
Proof.
  induction ps as [|p rest (IH1 & IH2 & IH3)]; simpl.
  - split; [discriminate|]. split.
    + intros [e He]. by apply elem_of_nil in He.
    + split; [constructor | by eexists].
  - split; [|split].
    + intros e. destruct p as [a | e' |];
        destruct (AsyncResolver.Promise_all rest) as [l | e'' |] eqn:Hrest;
        intros [= <-]; (by left) || (right; by apply IH1).
    + intros [e He]. apply elem_of_cons in He as [<- | He]; [by eexists|].
      destruct (IH2 (ex_intro _ e He)) as [e' ->].
      destruct p; by eexists.
    + split.
      * intros [l Hl]. destruct p as [a | e' |];
          destruct (AsyncResolver.Promise_all rest) as [l' | e'' |] eqn:Hrest;
          try discriminate.
        constructor; [by eexists | apply IH3; by eexists].
      * intros H. apply Forall_cons in H as [[a ->] Hrest].
        apply IH3 in Hrest as [l ->]. by eexists.
Qed.

(** X13.  [resolveAll] swallows nothing itself: it rejects exactly when
    some queued task is rejected (a task queued through [addTask] can be),
    with the reason of such a task, and it fulfils exactly when every
    queued task is fulfilled, in particular when nothing is queued. *)
Theorem resolveAll_outcome {Class Reason : Type} (w : AsyncResolver.World Class Reason) :
  ((exists e, AsyncResolver.resolveAll w = AsyncResolver.Rejected e)
   <-> exists e, AsyncResolver.Rejected e ∈ AsyncResolver.tasks w)
  /\ (forall e, AsyncResolver.resolveAll w = AsyncResolver.Rejected e ->
        AsyncResolver.Rejected e ∈ AsyncResolver.tasks w)
  /\ (AsyncResolver.resolveAll w = AsyncResolver.Fulfilled tt
      <-> Forall (fun t => t = AsyncResolver.Fulfilled tt) (AsyncResolver.tasks w))
  /\ (forall e : Reason, AsyncResolver.resolveAll (Class := Class)
                  (fst (AsyncResolver.addTask (AsyncResolver.Rejected e) AsyncResolver.initial))
                = AsyncResolver.Rejected e).
Proof.
  destruct (Promise_all_outcome (AsyncResolver.tasks w)) as (H1 & H2 & H3).
  assert (Hunit : Forall (fun t => t = AsyncResolver.Fulfilled tt) (AsyncResolver.tasks w)
                  <-> Forall (fun p : AsyncResolver.Promise Reason unit =>
                                exists a, p = AsyncResolver.Fulfilled a) (AsyncResolver.tasks w)).
  { apply Forall_iff. intros t. split; [intros ->; by eexists | intros [[] ->]; done]. }
  unfold AsyncResolver.resolveAll.
  destruct (AsyncResolver.tasks w) as [|t ts] eqn:Htasks.
  { simpl. repeat split; try done; try discriminate.
    - intros [e He]. discriminate.
    - intros [e He]. by apply elem_of_nil in He. }
  replace (0 <? Z.of_nat (length (t :: ts))) with true
    by (symmetry; apply Z.ltb_lt; simpl; lia).
  split; [|split; [|split]].
  - split.
    + intros [e He]. exists e. apply H1.
      destruct (AsyncResolver.Promise_all (t :: ts)); congruence.
    + intros Hex. destruct (H2 Hex) as [e ->]. by eexists.
  - intros e He. apply H1. destruct (AsyncResolver.Promise_all (t :: ts)); congruence.
  - rewrite Hunit, <- H3. split.
    + destruct (AsyncResolver.Promise_all (t :: ts)) as [l | |]; try discriminate.
      intros _. by eexists.
    + intros [l ->]. reflexivity.
  - intros e. reflexivity.
Qed.

(** X14.  Deferring the type changes one entry of what the decorators
    record: under ["design:itemtype"] the deferred form stores the promise
    itself, where the direct form stores the class.  Every other entry is
    the same, in the same order.  The direct form queues and logs nothing;
    the deferred form queues one task, fulfilled. *)
Theorem deferred_type_stores_promise {Class Reason : Type}
    (class_name : Class -> string)
    (throws : AsyncResolver.MetaWrite Class Reason -> option Reason)
    (type : option Class) (each : option bool) (target key : string)
    (w : AsyncResolver.World Class Reason) :
  throws (AsyncResolver.ValidateNested target key (default false each)) = None ->
  throws (AsyncResolver.DesignItemType target key (AsyncResolver.Direct type)) = None ->
  throws (AsyncResolver.DesignItemType target key
            (AsyncResolver.Deferred (AsyncResolver.Fulfilled type))) = None ->
  let direct :=
    AsyncResolver.IsEntity class_name throws (AsyncResolver.Direct type) each target key w in
  let deferred :=
    AsyncResolver.IsEntity class_name throws
      (AsyncResolver.Deferred (AsyncResolver.Fulfilled type)) each target key w in
  (exists rest,
      AsyncResolver.metadata (fst direct)
        = AsyncResolver.metadata w
          ++ AsyncResolver.ValidateNested target key (default false each)
             :: AsyncResolver.DesignItemType target key (AsyncResolver.Direct type)
             :: rest
      /\ AsyncResolver.metadata (fst deferred)
        = AsyncResolver.metadata w
          ++ AsyncResolver.ValidateNested target key (default false each)
             :: AsyncResolver.DesignItemType target key
                  (AsyncResolver.Deferred (AsyncResolver.Fulfilled type))
             :: rest)
  /\ AsyncResolver.metadata (fst deferred) <> AsyncResolver.metadata (fst direct)
  /\ AsyncResolver.tasks (fst direct) = AsyncResolver.tasks w
  /\ AsyncResolver.console (fst direct) = AsyncResolver.console w
  /\ AsyncResolver.tasks (fst deferred)
       = AsyncResolver.tasks w ++ [AsyncResolver.Fulfilled tt].
Proof.
  intros H1 H2 H3 direct deferred.
  assert (Hrest : exists rest,
      AsyncResolver.metadata (fst direct)
        = AsyncResolver.metadata w
          ++ AsyncResolver.ValidateNested target key (default false each)
             :: AsyncResolver.DesignItemType target key (AsyncResolver.Direct type)
             :: rest
      /\ AsyncResolver.metadata (fst deferred)
        = AsyncResolver.metadata w
          ++ AsyncResolver.ValidateNested target key (default false each)
             :: AsyncResolver.DesignItemType target key
                  (AsyncResolver.Deferred (AsyncResolver.Fulfilled type))
             :: rest).
  { subst direct deferred.
    unfold AsyncResolver.IsEntity, AsyncResolver.bind, AsyncResolver.decorate,
      AsyncResolver.ApplyJsonSchemaType, AsyncResolver.FixArrayJsonSchemaReference,
      AsyncResolver.FixItemJsonSchemaReference, AsyncResolver.then_, AsyncResolver.catch_,
      AsyncResolver.console_error, AsyncResolver.addTask, AsyncResolver.ret,
      AsyncResolver.bind, AsyncResolver.decorate.
    rewrite H1. simpl. rewrite H2, H3. simpl.
    repeat (case_match; simplify_eq; simpl);
      rewrite <- ?app_assoc; simpl; eexists; split; reflexivity. }
  split; [exact Hrest|]. split.
  - destruct Hrest as (rest & Hd & Hp). rewrite Hd, Hp.
    intros Heq. apply app_inv_head in Heq. discriminate.
  - subst direct deferred.
    unfold AsyncResolver.IsEntity, AsyncResolver.bind, AsyncResolver.decorate,
      AsyncResolver.ApplyJsonSchemaType, AsyncResolver.FixArrayJsonSchemaReference,
      AsyncResolver.FixItemJsonSchemaReference, AsyncResolver.then_, AsyncResolver.catch_,
      AsyncResolver.console_error, AsyncResolver.addTask, AsyncResolver.ret,
      AsyncResolver.bind, AsyncResolver.decorate.
    rewrite H1. simpl. rewrite H2, H3. simpl.
    repeat (case_match; simplify_eq; simpl); repeat split; done.
Qed.

Lemma deferred_type_stores_promise_witness :
  AsyncResolver.metadata
    (fst (AsyncResolver.IsEntity (Reason := string) (fun c : string => c) (fun _ => None)
            (AsyncResolver.Deferred (AsyncResolver.Fulfilled (Some "User")))
            (Some true) "Post" "authors" AsyncResolver.initial))
    <> AsyncResolver.metadata
         (fst (AsyncResolver.IsEntity (Reason := string) (fun c : string => c) (fun _ => None)
                 (AsyncResolver.Direct (Some "User")) (Some true) "Post" "authors"
                 AsyncResolver.initial)).
Proof.
  exact (proj1 (proj2 (deferred_type_stores_promise (Reason := string) (fun c : string => c)
                         (fun _ => None) (Some "User") (Some true) "Post" "authors"
                         AsyncResolver.initial eq_refl eq_refl eq_refl))).
Defined.

(** ** The file-field metadata of a class *)

Module MetadataFacts.

Import Metadata.

Lemma lookup_chain_insert_other (own : gmap string nat) (k : string) (r : nat)
    (chain : list string) :
  k ∉ chain -> lookup_chain (<[k := r]> own) chain = lookup_chain own chain.
Proof.
  induction chain as [|c rest IH]; intros Hk; [reflexivity|].
  apply not_elem_of_cons in Hk as [Hne Hk]. simpl.
  rewrite lookup_insert_ne by done. by rewrite IH.
Qed.

Lemma lookup_chain_insert_same (own : gmap string nat) (k : string) (r : nat)
    (chain : list string) :
  lookup_chain own chain = Some r -> lookup_chain (<[k := r]> own) chain = Some r.
Proof.
  induction chain as [|c rest IH]; simpl; [done|]. intros H.
  destruct (decide (k = c)) as [-> | Hne].
  - by rewrite lookup_insert_eq.
  - rewrite lookup_insert_ne by done. destruct (own !! c); [done | by apply IH].
Qed.

Lemma lookup_chain_bound (reg : Registry) (chain : list string) (r : nat) :
  well_formed reg -> lookup_chain (own reg) chain = Some r -> (r < length (arrays reg))%nat.
Proof.
  intros Hwf. induction chain as [|c rest IH]; simpl; [discriminate|].
  destruct (own reg !! c) as [r'|] eqn:Hc; [|exact IH].
  intros [= <-]. by apply (Hwf c).
Qed.

Lemma well_formed_empty : well_formed empty.
Proof. intros c r H. simpl in H. by rewrite lookup_empty in H. Qed.

Lemma store_well_formed (cls : Class) (key : string) (array : bool)
    (o : FileFieldOptions) (reg : Registry) :
  well_formed reg -> well_formed (storeFileFieldMetadata cls key array o reg).
Proof.
  intros Hwf c r. unfold storeFileFieldMetadata.
  destruct (getMetadata cls reg) as [r0|] eqn:Hget; simpl.
  - rewrite length_alter. destruct (decide (class_id cls = c)) as [<- | Hne].
    + rewrite lookup_insert_eq. intros [= <-]. by apply (lookup_chain_bound reg _ _ Hwf Hget).
    + rewrite lookup_insert_ne by done. apply Hwf.
  - rewrite length_app. simpl. destruct (decide (class_id cls = c)) as [<- | Hne].
    + rewrite lookup_insert_eq. intros [= <-]. lia.
    + rewrite lookup_insert_ne by done. intros H. specialize (Hwf c r H). lia.
Qed.

(** The class that stores a field reads its former list with the field
    appended. *)
Lemma store_own (cls : Class) (key : string) (array : bool) (o : FileFieldOptions)
    (reg : Registry) :
  well_formed reg ->
  getFileFieldsMetadata cls (storeFileFieldMetadata cls key array o reg)
    = getFileFieldsMetadata cls reg
      ++ [{| propertyKey := key; isArray := array; options := o |}].
Proof.
  intros Hwf. unfold getFileFieldsMetadata, storeFileFieldMetadata.
  destruct (getMetadata cls reg) as [r|] eqn:Hget; unfold getMetadata;
    cbn [own arrays lookup_chain]; rewrite lookup_insert_eq.
  - rewrite list_lookup_alter_eq.
    pose proof (lookup_chain_bound reg _ _ Hwf Hget) as Hlt.
    destruct (lookup_lt_is_Some_2 (arrays reg) r Hlt) as [l ->]. reflexivity.
  - by rewrite list_lookup_middle.
Qed.

(** Whoever read the same array as the storing class reads the new field
    too. *)
Lemma store_shared (cls other : Class) (key : string) (array : bool)
    (o : FileFieldOptions) (reg : Registry) (r : nat) :
  well_formed reg ->
  getMetadata cls reg = Some r ->
  getMetadata other reg = Some r ->
  getFileFieldsMetadata other (storeFileFieldMetadata cls key array o reg)
    = getFileFieldsMetadata other reg
      ++ [{| propertyKey := key; isArray := array; options := o |}].
Proof.
  intros Hwf Hcls Hother. unfold getFileFieldsMetadata, storeFileFieldMetadata.
  rewrite Hcls, Hother. unfold getMetadata in *. cbn [own arrays].
  rewrite (lookup_chain_insert_same _ _ _ _ Hother), list_lookup_alter_eq.
  pose proof (lookup_chain_bound reg _ _ Hwf Hother) as Hlt.
  destruct (lookup_lt_is_Some_2 (arrays reg) r Hlt) as [l ->]. reflexivity.
Qed.

(** A class outside the storing class's array keeps its list. *)
Lemma store_other (cls other : Class) (key : string) (array : bool)
    (o : FileFieldOptions) (reg : Registry) :
  well_formed reg ->
  class_id cls ∉ class_id other :: superclasses other ->
  getMetadata other reg <> getMetadata cls reg \/ getMetadata cls reg = None ->
  getFileFieldsMetadata other (storeFileFieldMetadata cls key array o reg)
    = getFileFieldsMetadata other reg.
Proof.
  intros Hwf Hout Hdiff. unfold getFileFieldsMetadata, storeFileFieldMetadata.
  destruct (getMetadata cls reg) as [r|] eqn:Hcls; unfold getMetadata in *; cbn [own arrays];
    rewrite lookup_chain_insert_other by done.
  - destruct (lookup_chain (own reg) (class_id other :: superclasses other)) as [r'|];
      [|reflexivity].
    rewrite list_lookup_alter_ne; [reflexivity|]. destruct Hdiff; congruence.
  - destruct (lookup_chain (own reg) (class_id other :: superclasses other)) as [r'|] eqn:Ho;
      [|reflexivity].
    rewrite lookup_app_l; [reflexivity|]. by apply (lookup_chain_bound reg _ _ Hwf Ho).
Qed.

Lemma store_other_resolved (cls other : Class) (key : string) (array : bool)
    (o : FileFieldOptions) (reg : Registry) :
  class_id cls ∉ class_id other :: superclasses other ->
  getMetadata other (storeFileFieldMetadata cls key array o reg) = getMetadata other reg.
Proof.
  intros Hout. unfold storeFileFieldMetadata, getMetadata.
  destruct (lookup_chain (own reg) (class_id cls :: superclasses cls)); cbn [own arrays];
    by rewrite lookup_chain_insert_other.
Qed.

(** After a store the class names an array that exists beyond every array
    another class could name before. *)
Lemma store_resolved (cls : Class) (key : string) (array : bool) (o : FileFieldOptions)
    (reg : Registry) :
  getMetadata cls (storeFileFieldMetadata cls key array o reg)
    = Some (default (length (arrays reg)) (getMetadata cls reg)).
Proof.
  unfold storeFileFieldMetadata.
  destruct (getMetadata cls reg) as [r|]; unfold getMetadata;
    cbn [own arrays lookup_chain]; by rewrite lookup_insert_eq.
Qed.

Lemma registry_decorate_class (cls : Class) (ds : list Declaration) :
  forall s,
    registry (decorate_class cls ds s)
    = foldl (fun reg d => storeFileFieldMetadata cls (decl_key d) (many d) (decl_options d) reg)
        (registry s) ds.
Proof.
  induction ds as [|d rest IH]; intros s; [reflexivity|]. simpl.
  rewrite IH. by destruct (many d).
Qed.

Lemma foldl_store_own (cls : Class) (ds : list Declaration) :
  forall reg,
    well_formed reg ->
    let reg' := foldl (fun reg d =>
                         storeFileFieldMetadata cls (decl_key d) (many d) (decl_options d) reg)
                  reg ds in
    well_formed reg'
    /\ getFileFieldsMetadata cls reg' = getFileFieldsMetadata cls reg ++ (declared <$> ds).
Proof.
  induction ds as [|d rest IH]; intros reg Hwf; simpl.
  - by rewrite app_nil_r.
  - destruct (IH _ (store_well_formed cls (decl_key d) (many d) (decl_options d) reg Hwf))
      as [Hwf' Hget].
    split; [exact Hwf'|]. rewrite Hget, store_own by done.
    by rewrite <- app_assoc.
Qed.

Lemma foldl_store_other (cls other : Class) (ds : list Declaration) :
  forall reg,
    well_formed reg ->
    class_id cls ∉ class_id other :: superclasses other ->
    getMetadata other reg <> getMetadata cls reg \/ getMetadata cls reg = None ->
    getFileFieldsMetadata other
      (foldl (fun reg d =>
                storeFileFieldMetadata cls (decl_key d) (many d) (decl_options d) reg)
         reg ds)
    = getFileFieldsMetadata other reg.
Proof.
  induction ds as [|d rest IH]; intros reg Hwf Hout Hdiff; [reflexivity|]. simpl.
  rewrite IH.
  - by apply store_other.
  - by apply store_well_formed.
  - exact Hout.
  - left. rewrite store_other_resolved, store_resolved by done.
    destruct (getMetadata cls reg) as [r|] eqn:Hcls; simpl.
    + destruct Hdiff as [Hdiff | ?]; [|discriminate]. congruence.
    + intros Ho. apply (lookup_chain_bound reg _ _ Hwf) in Ho. lia.
Qed.

End MetadataFacts.

(** X15.  For a class that has and inherits no file fields yet, the
    decorators [@IsFile] and [@IsFiles] of its properties leave, in
    declaration order, exactly the declared fields as what
    [getFileFieldsMetadata] returns; a class that is not below it in the
    class hierarchy keeps its own list. *)
Theorem declarations_in_order (cls : Metadata.Class) (ds : list Metadata.Declaration)
    (s : Metadata.Decorated) :
  Metadata.well_formed (Metadata.registry s) ->
  Metadata.getMetadata cls (Metadata.registry s) = None ->
  Metadata.getFileFieldsMetadata cls (Metadata.registry (Metadata.decorate_class cls ds s))
    = Metadata.declared <$> ds
  /\ forall other,
       Metadata.class_id cls ∉ Metadata.class_id other :: Metadata.superclasses other ->
       Metadata.getFileFieldsMetadata other
         (Metadata.registry (Metadata.decorate_class cls ds s))
       = Metadata.getFileFieldsMetadata other (Metadata.registry s).
Proof.
  intros Hwf Hnone. rewrite MetadataFacts.registry_decorate_class. split.
  - destruct (MetadataFacts.foldl_store_own cls ds _ Hwf) as [_ ->].
    unfold Metadata.getFileFieldsMetadata. by rewrite Hnone.
  - intros other Hout. apply MetadataFacts.foldl_store_other; auto.
Qed.

Lemma declarations_in_order_witness :
  let upload := {| Metadata.class_id := "UploadDto"; Metadata.superclasses := [] |} in
  let ds := [ Metadata.Build_Declaration false "picture" (options avatar);
              Metadata.Build_Declaration true "docs" (options docs) ] in
  let s := {| Metadata.registry := Metadata.empty; Metadata.validation := [] |} in
  Metadata.getFileFieldsMetadata upload (Metadata.registry (Metadata.decorate_class upload ds s))
    = Metadata.declared <$> ds
  /\ forall other,
       Metadata.class_id upload ∉ Metadata.class_id other :: Metadata.superclasses other ->
       Metadata.getFileFieldsMetadata other
         (Metadata.registry (Metadata.decorate_class upload ds s))
       = Metadata.getFileFieldsMetadata other (Metadata.registry s).
Proof.
  intros upload ds s. apply (declarations_in_order upload ds s).
  - apply MetadataFacts.well_formed_empty.
  - reflexivity.
Defined.

(** X16.  A subclass without file fields of its own reads its parent's
    array, and [storeFileFieldMetadata] pushes onto the array it reads: the
    first file field declared on the subclass also appears in the parent's
    list. *)
Theorem subclass_field_reaches_parent (parent child : Metadata.Class)
    (key : string) (array : bool) (o : FileFieldOptions) (reg : Metadata.Registry) :
  Metadata.well_formed reg ->
  Metadata.superclasses child = Metadata.class_id parent :: Metadata.superclasses parent ->
  Metadata.own reg !! Metadata.class_id child = None ->
  is_Some (Metadata.getMetadata parent reg) ->
  let reg' := Metadata.storeFileFieldMetadata child key array o reg in
  let meta := {| propertyKey := key; isArray := array; options := o |} in
  Metadata.getFileFieldsMetadata parent reg'
    = Metadata.getFileFieldsMetadata parent reg ++ [meta]
  /\ Metadata.getFileFieldsMetadata child reg'
     = Metadata.getFileFieldsMetadata parent reg ++ [meta].
Proof.
  intros Hwf Hsuper Hown [r Hparent] reg' meta.
  assert (Hchild : Metadata.getMetadata child reg = Some r).
  { unfold Metadata.getMetadata in *. rewrite Hsuper. simpl. by rewrite Hown. }
  split.
  - by apply (MetadataFacts.store_shared child parent key array o reg r).
  - unfold reg'. rewrite (MetadataFacts.store_shared child child key array o reg r) by done.
    unfold Metadata.getFileFieldsMetadata. by rewrite Hchild, Hparent.
Qed.

Lemma subclass_field_reaches_parent_witness :
  let base := {| Metadata.class_id := "BaseDto"; Metadata.superclasses := [] |} in
  let sub := {| Metadata.class_id := "SubDto"; Metadata.superclasses := ["BaseDto"] |} in
  let reg := Metadata.storeFileFieldMetadata base "picture" false (options avatar) Metadata.empty in
  let reg' := Metadata.storeFileFieldMetadata sub "docs" true (options docs) reg in
  let meta := {| propertyKey := "docs"; isArray := true; options := options docs |} in
  Metadata.getFileFieldsMetadata base reg' = Metadata.getFileFieldsMetadata base reg ++ [meta]
  /\ Metadata.getFileFieldsMetadata sub reg' = Metadata.getFileFieldsMetadata base reg ++ [meta].
Proof.
  intros base sub reg.
  apply (subclass_field_reaches_parent base sub "docs" true (options docs) reg).
  - apply MetadataFacts.store_well_formed, MetadataFacts.well_formed_empty.
  - reflexivity.
  - vm_compute. reflexivity.
  - vm_compute. by eexists.
Defined.

(** ** What the middleware reads *)

Lemma process_field_reads_own_entry (bytes : string -> option Z) (m : FileFieldMetadata)
    (st1 st2 : gmap string FilesEntry) :
  st1 !! field_name m = st2 !! field_name m ->
  match process_field bytes m st1, process_field bytes m st2 with
  | Continue a, Continue b =>
      forall name, st1 !! name = st2 !! name -> a !! name = b !! name
  | Return o1 _, Return o2 _ => o1 = o2
  | _, _ => False
  end.
Proof.
  intros Heq. unfold process_field, file_loop. rewrite Heq.
  assert (Hins : forall v name, st1 !! name = st2 !! name ->
            <[field_name m := v]> st1 !! name = <[field_name m := v]> st2 !! name).
  { intros v name Hn. destruct (decide (field_name m = name)) as [<- | Hne].
    - by rewrite !lookup_insert_eq.
    - by rewrite !lookup_insert_ne. }
  repeat (case_match; simplify_eq; try done); auto.
Qed.

Lemma validate_fields_reads_declared (bytes : string -> option Z)
    (fileFields : list FileFieldMetadata) :
  forall st1 st2,
    (forall m, m ∈ fileFields -> st1 !! field_name m = st2 !! field_name m) ->
    match validate_fields bytes fileFields st1, validate_fields bytes fileFields st2 with
    | Continue _, Continue _ => True
    | Return o1 _, Return o2 _ => o1 = o2
    | _, _ => False
    end.
Proof.
  induction fileFields as [|m rest IH]; intros st1 st2 Hagree; simpl; [done|].
  pose proof (process_field_reads_own_entry bytes m st1 st2 (Hagree m ltac:(left))) as Hstep.
  destruct (process_field bytes m st1) as [a | o1 a],
    (process_field bytes m st2) as [b | o2 b]; try done.
  apply IH. intros m' Hm'. apply Hstep, Hagree. by right.
Qed.

(** X17.  The outcome depends on [req.files] only through the entries
    under the declared names: two requests whose containers agree there end
    the same way, whatever else the containers hold. *)
Theorem outcome_reads_declared_names_only (bytes : string -> option Z)
    (fileFields : list FileFieldMetadata) (err : option Error)
    (st1 st2 : gmap string FilesEntry) :
  (forall m, m ∈ fileFields -> st1 !! field_name m = st2 !! field_name m) ->
  fst (UseMulter_callback bytes fileFields err (Some st1))
    = fst (UseMulter_callback bytes fileFields err (Some st2)).
Proof.
  intros Hagree. unfold UseMulter_callback. destruct err as [e|]; [reflexivity|].
  pose proof (validate_fields_reads_declared bytes fileFields st1 st2 Hagree) as H.
  destruct (validate_fields bytes fileFields st1), (validate_fields bytes fileFields st2);
    simpl; by try subst.
Qed.

Lemma outcome_reads_declared_names_only_witness :
  fst (UseMulter_callback Bytes.bytes [docs; cover] None
         (Some (parsed {[ "docs" := [png "a.png" 1]; "stray" := [png "x.png" 9] ]})))
    = fst (UseMulter_callback Bytes.bytes [docs; cover] None
             (Some (parsed {[ "docs" := [png "a.png" 1] ]}))).
Proof.
  apply (outcome_reads_declared_names_only Bytes.bytes [docs; cover] None).
  intros m Hm.
  apply elem_of_cons in Hm as [-> | Hm]; [vm_compute; reflexivity|].
  apply elem_of_cons in Hm as [-> | Hm]; [vm_compute; reflexivity|].
  by apply elem_of_nil in Hm.
Defined.
